(** * Aggregate segmentation (Cytomine data mining)

    A shallow embedding of [AggregateSegmenter.segment], which exists twice in
    the repository:
      - cytomine-applications/util/dataset/segmenters.py          (module [Segmenters])
      - cytomine-datamining/algorithms/thyroid/aggregate_processing.py
                                                                  (module [AggregateProcessing])

    [segment] is a chain of numpy, OpenCV (cv2, version 2.4) and scipy.ndimage
    calls over rasters.  Rasters are two-dimensional arrays with an explicit
    shape; the morphological operators, the sliding maximum, the labelling and
    the numpy masked assignments are written out; the calls whose result is
    decided inside the library (contour tracing, hull geometry, polygon
    rasterisation, distance transform, flooding) and the two collaborators
    that live outside the two files (the colour deconvoluter and
    [otsu_threshold_with_mask]) are the fields of a record.  Python floats are
    binary64 and are the kernel's primitive floats. *)

From Stdlib Require Import ZArith List Lia Bool Arith Floats.
Import ListNotations.

Set Implicit Arguments.

(* ------------------------------------------------------------------ *)
(** ** Python outcomes *)

(** The exceptions [segment] can raise by itself. *)
Inductive exn : Type :=
| TypeError          (* subscripting None *)
| IndexError         (* list index out of range *)
| ZeroDivisionError. (* float division by zero *)

Inductive result (A : Type) : Type :=
| Ok (a : A)
| Raise (e : exn).

Arguments Ok {A} a.
Arguments Raise {A} e.

Definition bind {A B : Type} (r : result A) (k : A -> result B) : result B :=
  match r with
  | Ok a => k a
  | Raise e => Raise e
  end.

Notation "x <- e ;; k" := (bind e (fun x => k))
  (at level 61, e at next level, right associativity).

(* ------------------------------------------------------------------ *)
(** ** numpy arrays of rank two *)

Record ndarray (A : Type) : Type := mk_ndarray {
  nrows : nat;             (* shape[0] *)
  ncols : nat;             (* shape[1] *)
  cells : list (list A)    (* row major *)
}.

(** The array of shape [(h, w)] holding [f i j] at row [i], column [j]. *)
Definition tabulate {A : Type} (h w : nat) (f : nat -> nat -> A) : ndarray A :=
  mk_ndarray h w (map (fun i => map (f i) (seq 0 w)) (seq 0 h)).

(** Element [i, j]; [d] stands for what a caller reads outside the array. *)
Definition get {A : Type} (d : A) (a : ndarray A) (i j : nat) : A :=
  if (i <? nrows a) && (j <? ncols a)
  then nth j (nth i (cells a) []) d
  else d.

(** [np.zeros(shape, dtype="uint8")] *)
Definition np_zeros (h w : nat) : ndarray Z := tabulate h w (fun _ _ => 0%Z).

(** [a.astype(np.uint8)] on one integer: the low eight bits. *)
Definition to_uint8 (z : Z) : Z := (z mod 256)%Z.

Definition astype_uint8 (a : ndarray Z) : ndarray Z :=
  tabulate (nrows a) (ncols a) (fun i j => to_uint8 (get 0%Z a i j)).

(** [a.astype(np.int32)] on one integer: two's complement on 32 bits. *)
Definition to_int32 (z : Z) : Z := ((z + 2 ^ 31) mod 2 ^ 32 - 2 ^ 31)%Z.

Definition astype_int32 (a : ndarray Z) : ndarray Z :=
  tabulate (nrows a) (ncols a) (fun i j => to_int32 (get 0%Z a i j)).

(** [a - b] on uint8 arrays of one shape: the difference wraps. *)
Definition sub_uint8 (a b : ndarray Z) : ndarray Z :=
  tabulate (nrows a) (ncols a)
    (fun i j => to_uint8 (get 0%Z a i j - get 0%Z b i j)).

(** [a[mask] = v] with a boolean array [mask] of the shape of [a]. *)
Definition set_where {A : Type} (d : A) (a : ndarray A)
    (mask : nat -> nat -> bool) (v : A) : ndarray A :=
  tabulate (nrows a) (ncols a)
    (fun i j => if mask i j then v else get d a i j).

(** The two values of a binary mask. *)
Definition bit255 (z : Z) : Prop := z = 0%Z \/ z = 255%Z.

(** Every pixel in range is one of 0 and 255. *)
Definition binary_mask (a : ndarray Z) : Prop :=
  forall i j, i < nrows a -> j < ncols a -> bit255 (get 0%Z a i j).

(** Every pixel in range is 0. *)
Definition all_zero (a : ndarray Z) : Prop :=
  forall i j, i < nrows a -> j < ncols a -> get 0%Z a i j = 0%Z.

(** Number of pixels in range holding [v]: the area of colour [v]. *)
Definition count_value (v : Z) (a : ndarray Z) : nat :=
  length (filter (fun p => Z.eqb (get 0%Z a (fst p) (snd p)) v)
            (list_prod (seq 0 (nrows a)) (seq 0 (ncols a)))).

(* ------------------------------------------------------------------ *)
(** ** Python numbers *)

(** A constructor argument such as [cell_max_area] is an int (the default
    4000) or a float. *)
Inductive pynum : Type :=
| PyInt (z : Z)
| PyFloat (f : float).

(** [float(z)] for [|z| < 2^53], where the conversion is exact: it is applied
    to the int literals 2 and 10, and to the small integers of the examples. *)
Definition float_of_Z (z : Z) : float :=
  if (z <? 0)%Z
  then PrimFloat.opp (PrimFloat.of_uint63 (Uint63.of_Z (- z)))
  else PrimFloat.of_uint63 (Uint63.of_Z z).

(** A float against an int: Python compares the two values exactly, without
    rounding the int to a float.  A finite float is [+-m * 2^e]; None stands
    for a NaN, which no comparison holds of. *)
Definition compare_float_Z (x : float) (z : Z) : option comparison :=
  match Prim2SF x with
  | S754_nan => None
  | S754_infinity s => Some (if s then Lt else Gt)
  | S754_zero _ => Some (0 ?= z)%Z
  | S754_finite s m e =>
      let v := if s then Z.neg m else Z.pos m in
      Some (if (0 <=? e)%Z then (v * 2 ^ e ?= z)%Z
            else (v ?= z * 2 ^ (- e))%Z)
  end.

(** [a / k] with an int literal [k] in Python 2 (the files import cv2.cv and
    have no [from __future__ import division]): floor division on an int,
    true division on a float. *)
Definition py2_div (a : pynum) (k : Z) : pynum :=
  match a with
  | PyInt z => PyInt (z / k)
  | PyFloat f => PyFloat (PrimFloat.div f (float_of_Z k))
  end.

(** [x < a] and [x > a] for a float [x]. *)
Definition float_lt_num (x : float) (a : pynum) : bool :=
  match a with
  | PyInt z => match compare_float_Z x z with Some Lt => true | _ => false end
  | PyFloat f => PrimFloat.ltb x f
  end.

Definition float_gt_num (x : float) (a : pynum) : bool :=
  match a with
  | PyInt z => match compare_float_Z x z with Some Gt => true | _ => false end
  | PyFloat f => PrimFloat.ltb f x
  end.

(** [x / y] on Python floats: a zero divisor raises. *)
Definition py_float_div (x y : float) : result float :=
  if PrimFloat.eqb y 0%float then Raise ZeroDivisionError
  else Ok (PrimFloat.div x y).

(** [np.pi] *)
Definition np_pi : float := 0x1.921fb54442d18p+1%float.

(* ------------------------------------------------------------------ *)
(** ** cv2: colour conversion *)

Definition rgb : Type := (Z * Z * Z)%type.
Definition rgba : Type := (Z * Z * Z * Z)%type.

Definition black : rgb := (0, 0, 0)%Z.
Definition white : rgb := (255, 255, 255)%Z.

(** [cv2.cvtColor(image, cv2.COLOR_BGR2RGB)]: channels 0 and 2 change place. *)
Definition cvtColor_BGR2RGB (a : ndarray rgb) : ndarray rgb :=
  tabulate (nrows a) (ncols a)
    (fun i j => let '(c0, c1, c2) := get black a i j in (c2, c1, c0)).

(** [cv2.cvtColor(image, cv2.COLOR_RGB2GRAY)] on 8-bit pixels: the library's
    fixed-point weights of 0.299, 0.587 and 0.114 on 14 bits. *)
Definition cvtColor_RGB2GRAY (a : ndarray rgb) : ndarray Z :=
  tabulate (nrows a) (ncols a)
    (fun i j => let '(r, g, b) := get black a i j in
                Z.shiftr (r * 4899 + g * 9617 + b * 1868 + 8192) 14)%Z.

(* ------------------------------------------------------------------ *)
(** ** cv2: morphology *)

(** A structuring element is a uint8 matrix. *)
Definition kernel : Type := ndarray Z.

(** The indices of an array of shape [(h, w)], row by row. *)
Definition positions (h w : nat) : list (nat * nat) :=
  list_prod (seq 0 h) (seq 0 w).

(** A 3 x 3 matrix of ones: what cv2 takes for an empty element, and
    [np.ones((3,3))]. *)
Definition ones3x3 : kernel := tabulate 3 3 (fun _ _ => 1%Z).

(** cv2 replaces an empty element by the 3 x 3 rectangle. *)
Definition effective_kernel (k : kernel) : kernel :=
  if (nrows k =? 0) || (ncols k =? 0) then ones3x3 else k.

(** The cells of a matrix that are not zero. *)
Definition set_cells (k : ndarray Z) : list (nat * nat) :=
  filter (fun p => negb (Z.eqb (get 0%Z k (fst p) (snd p)) 0))
         (positions (nrows k) (ncols k)).

(** The cells of the element that are set; cv2 keeps cell (0,0) when none is. *)
Definition kernel_coords (k : kernel) : list (nat * nat) :=
  match set_cells k with
  | [] => [(0, 0)]
  | l => l
  end.

(** The default anchor [(-1,-1)] is the centre cell [(rows/2, cols/2)]. *)
Definition anchor (k : kernel) : nat * nat := (nrows k / 2, ncols k / 2).

(** The pixel that cell [p] of the element reads when the anchor sits on
    [(i, j)]; [border] outside the image. *)
Definition probe (border : Z) (img : ndarray Z) (k : kernel) (i j : nat)
    (p : nat * nat) : Z :=
  if (fst (anchor k) <=? i + fst p) && (snd (anchor k) <=? j + snd p)
  then get border img (i + fst p - fst (anchor k)) (j + snd p - snd (anchor k))
  else border.

(** The element has its anchor cell set, as the standard element has. *)
Definition holds_anchor (k : kernel) : bool :=
  existsb (fun p => (fst p =? fst (anchor (effective_kernel k))) &&
                    (snd p =? snd (anchor (effective_kernel k))))
          (kernel_coords (effective_kernel k)).

(** Pixel [(i', j')] lies under a set cell of the element whose anchor sits
    on [(i, j)]. *)
Definition covers (k : kernel) (i j i' j' : nat) : bool :=
  existsb (fun p =>
             (i' + fst (anchor (effective_kernel k)) =? i + fst p) &&
             (j' + snd (anchor (effective_kernel k)) =? j + snd p))
          (kernel_coords (effective_kernel k)).

(** One pass of [cv2.dilate]: the maximum under the element; pixels outside
    the image count as the least value. *)
Definition dilate1 (k : kernel) (img : ndarray Z) : ndarray Z :=
  tabulate (nrows img) (ncols img)
    (fun i j => fold_right Z.max 0%Z
                  (map (probe 0 img (effective_kernel k) i j)
                       (kernel_coords (effective_kernel k)))).

(** One pass of [cv2.erode]: the minimum under the element; pixels outside
    the image count as the greatest value. *)
Definition erode1 (k : kernel) (img : ndarray Z) : ndarray Z :=
  tabulate (nrows img) (ncols img)
    (fun i j => fold_right Z.min 255%Z
                  (map (probe 255 img (effective_kernel k) i j)
                       (kernel_coords (effective_kernel k)))).

(** [cv2.dilate(img, k, iterations=n)] and [cv2.erode(img, k, iterations=n)] *)
Definition dilate (img : ndarray Z) (k : kernel) (n : nat) : ndarray Z :=
  Nat.iter n (dilate1 k) img.

Definition erode (img : ndarray Z) (k : kernel) (n : nat) : ndarray Z :=
  Nat.iter n (erode1 k) img.

Inductive morph_op : Type := MORPH_ERODE | MORPH_DILATE | MORPH_OPEN | MORPH_CLOSE.

(** [cv2.morphologyEx(img, op, k, iterations=n)] *)
Definition morphologyEx (img : ndarray Z) (op : morph_op) (k : kernel)
    (n : nat) : ndarray Z :=
  match op with
  | MORPH_ERODE => erode img k n
  | MORPH_DILATE => dilate img k n
  | MORPH_OPEN => dilate (erode img k n) k n
  | MORPH_CLOSE => erode (dilate img k n) k n
  end.

(* ------------------------------------------------------------------ *)
(** ** scipy.ndimage *)

(** Index [z] of an axis of length [n] under the default boundary mode
    ['reflect'] ([d c b a | a b c d | d c b a]). *)
Definition reflect (n : nat) (z : Z) : nat :=
  let m := (z mod (2 * Z.of_nat n))%Z in
  if (m <? Z.of_nat n)%Z then Z.to_nat m else Z.to_nat (2 * Z.of_nat n - 1 - m).

Definition float_max (x y : float) : float :=
  if PrimFloat.ltb x y then y else x.

(** The [size] x [size] window around [(i, j)], for an odd [size]. *)
Definition window (size : nat) (a : ndarray float) (i j : nat) : list float :=
  map (fun p =>
         get 0%float a
           (reflect (nrows a) (Z.of_nat i + Z.of_nat (fst p) - Z.of_nat (size / 2)))
           (reflect (ncols a) (Z.of_nat j + Z.of_nat (snd p) - Z.of_nat (size / 2))))
      (positions size size).

(** [maximum_filter(a, size=size)] *)
Definition maximum_filter (a : ndarray float) (size : nat) : ndarray float :=
  tabulate (nrows a) (ncols a)
    (fun i j => fold_right float_max PrimFloat.neg_infinity (window size a i j)).

(** A float that is a number, and an array that holds numbers only: a
    distance field holds no NaN. *)
Definition not_nan (x : float) : Prop := PrimFloat.is_nan x = false.

Definition no_nan (a : ndarray float) : Prop :=
  forall i j, i < nrows a -> j < ncols a -> not_nan (get 0%float a i j).

(** The pixels of [cur], and the features of [input] that touch one of them
    through a set cell of the 3 x 3 [structure]. *)
Definition grow_step (input : ndarray Z) (structure : kernel)
    (cur : ndarray bool) : ndarray bool :=
  tabulate (nrows input) (ncols input)
    (fun i j =>
       negb (Z.eqb (get 0%Z input i j) 0) &&
       (get false cur i j ||
        existsb (fun p => (1 <=? i + fst p) && (1 <=? j + snd p) &&
                          get false cur (i + fst p - 1) (j + snd p - 1))
                (set_cells structure))).

(** The pixels reached from [(i0, j0)] in [k] steps. *)
Definition grown (input : ndarray Z) (structure : kernel) (i0 j0 k : nat)
    : ndarray bool :=
  Nat.iter k (grow_step input structure)
    (tabulate (nrows input) (ncols input)
       (fun i j => (i =? i0) && (j =? j0))).

(** The connected feature that holds [(i0, j0)]. *)
Definition component (input : ndarray Z) (structure : kernel)
    (i0 j0 : nat) : ndarray bool :=
  grown input structure i0 j0 (nrows input * ncols input).

(** A scan step of the labelling: a feature pixel met without a label opens
    a new label, given to the pixels of its feature that have none. *)
Definition label_visit (input : ndarray Z) (structure : kernel)
    (st : ndarray Z * Z) (p : nat * nat) : ndarray Z * Z :=
  if negb (Z.eqb (get 0%Z input (fst p) (snd p)) 0) &&
     Z.eqb (get 0%Z (fst st) (fst p) (snd p)) 0
  then
    let comp := component input structure (fst p) (snd p) in
    (tabulate (nrows input) (ncols input)
       (fun i j => if get false comp i j && Z.eqb (get 0%Z (fst st) i j) 0
                   then (snd st + 1)%Z else get 0%Z (fst st) i j),
     (snd st + 1)%Z)
  else st.

(** [label(input, structure)]: the labelled array and the number of
    features, numbered in scan order. *)
Definition label (input : ndarray Z) (structure : kernel) : ndarray Z * Z :=
  fold_left (label_visit input structure)
    (positions (nrows input) (ncols input))
    (np_zeros (nrows input) (ncols input), 0%Z).

(** A pixel of the input that is a feature. *)
Definition feature (input : ndarray Z) (p : nat * nat) : Prop :=
  fst p < nrows input /\ snd p < ncols input /\
  get 0%Z input (fst p) (snd p) <> 0%Z.

(** Two pixels that coincide or touch by a side or a corner: the
    neighbourhood of [np.ones((3,3))]. *)
Definition adjacent8 (p q : nat * nat) : Prop :=
  fst p <= fst q + 1 /\ fst q <= fst p + 1 /\
  snd p <= snd q + 1 /\ snd q <= snd p + 1.

(** Features joined by a chain of features, each adjacent to the next. *)
Inductive connected8 (input : ndarray Z) : nat * nat -> nat * nat -> Prop :=
| connected8_refl (p : nat * nat) :
    feature input p -> connected8 input p p
| connected8_step (p q r : nat * nat) :
    connected8 input p q -> feature input r -> adjacent8 q r ->
    connected8 input p r.

(** The number of pixels of a boolean array that are set. *)
Definition count_true (a : ndarray bool) : nat :=
  length (filter (fun p => get false a (fst p) (snd p))
            (positions (nrows a) (ncols a))).

(** What holds of the labels and the counter all along the scan: the labels
    have the shape of the input, lie between 0 and the counter, sit on
    features only, and every number from 1 to the counter is in use. *)
Definition well_labelled (input : ndarray Z) (st : ndarray Z * Z) : Prop :=
  nrows (fst st) = nrows input /\
  ncols (fst st) = ncols input /\
  (0 <= snd st)%Z /\
  (forall i j, i < nrows input -> j < ncols input ->
     (0 <= get 0%Z (fst st) i j <= snd st)%Z) /\
  (forall i j, i < nrows input -> j < ncols input ->
     get 0%Z (fst st) i j <> 0%Z -> get 0%Z input i j <> 0%Z) /\
  (forall l, (1 <= l <= snd st)%Z ->
     exists i j, i < nrows input /\ j < ncols input /\
                 get 0%Z (fst st) i j = l).

(** What holds in addition when the structure is [np.ones((3,3))]: adjacent
    features that are labelled bear one label, and all pixels of one label
    are connected to one of them. *)
Definition labels_follow_connectivity (input : ndarray Z)
    (st : ndarray Z * Z) : Prop :=
  (forall p q, feature input p -> feature input q -> adjacent8 p q ->
     get 0%Z (fst st) (fst p) (snd p) <> 0%Z ->
     get 0%Z (fst st) (fst q) (snd q) = get 0%Z (fst st) (fst p) (snd p)) /\
  (forall l, (1 <= l <= snd st)%Z ->
     exists r, forall p, fst p < nrows input -> snd p < ncols input ->
       get 0%Z (fst st) (fst p) (snd p) = l -> connected8 input r p).

(* ------------------------------------------------------------------ *)
(** ** Collaborators *)

(** A contour is a sequence of integer points; a hierarchy row is
    [next, previous, first_child, parent]. *)
Definition point : Type := (Z * Z)%type.
Definition contour : Type := list point.
Definition hierarchy_row : Type := (Z * Z * Z * Z)%type.

(** [h[3]] *)
Definition parent (h : hierarchy_row) : Z := snd h.

(** What [segment] gets from outside the two files.  A call that hands back a
    raster of the shape of its argument is given by the pixel it computes. *)
Record collaborators : Type := {
  (** [otsu_threshold_with_mask(image_grey, alpha, cv2.THRESH_BINARY_INV)],
      of helpers.datamining.segmenter: the threshold and the pixels of the
      binary mask. *)
  otsu_threshold_with_mask : ndarray Z -> ndarray Z -> float * (nat -> nat -> Z);
  (** [cv2.findContours(img, cv2.RETR_CCOMP, cv2.CHAIN_APPROX_SIMPLE)]: the
      contours and [hierarchy[0]], or None for the hierarchy. *)
  findContours : ndarray Z -> list contour * option (list hierarchy_row);
  (** [cv2.convexHull(contour)] *)
  convexHull : contour -> contour;
  (** [cv2.contourArea(hull)] *)
  contourArea : contour -> float;
  (** [cv2.arcLength(hull, True)] *)
  arcLength : contour -> float;
  (** The pixels [cv2.drawContours(img, [hull], -1, 255, -1)] paints: the
      filled polygon. *)
  filled : contour -> nat -> nat -> bool;
  (** [cv2.distanceTransform(img, cv2.cv.CV_DIST_L2, 3)] *)
  distanceTransform : ndarray Z -> nat -> nat -> float;
  (** [cv2.watershed(image, markers)], which writes into [markers]. *)
  watershed : ndarray rgb -> ndarray Z -> nat -> nat -> Z
}.

(** [cv2.drawContours(img, [hull], -1, 255, -1)] *)
Definition drawContours (L : collaborators) (img : ndarray Z)
    (hull : contour) : ndarray Z :=
  set_where 0%Z img (filled L hull) 255%Z.

(** The fields [__init__] stores; [color_deconvoluter] is kept as its
    [transform]. *)
Record AggregateSegmenter : Type := {
  color_deconvoluter : ndarray rgb -> nat -> nat -> rgb;
  struct_elem : kernel;
  cell_max_area : pynum;
  min_circularity : pynum;
  small_struct_element : kernel;
  border : Z
}.

(** Rows of a matrix literal. *)
Definition matrix (rows : list (list Z)) : ndarray Z :=
  mk_ndarray (length rows) (length (hd [] rows)) rows.

(** [get_standard_struct_elem()] of segmenters.py *)
Definition get_standard_struct_elem : kernel :=
  matrix [[0; 0; 1; 1; 1; 0; 0];
          [0; 1; 1; 1; 1; 1; 0];
          [1; 1; 1; 1; 1; 1; 1];
          [1; 1; 1; 1; 1; 1; 1];
          [1; 1; 1; 1; 1; 1; 1];
          [0; 1; 1; 1; 1; 1; 0];
          [0; 0; 1; 1; 1; 0; 0]]%Z.

(** The element [__init__] builds for [_small_struct_element]. *)
Definition small_struct_element_literal : kernel :=
  matrix [[0; 1; 1; 1; 1; 0];
          [1; 1; 1; 1; 1; 1];
          [1; 1; 1; 1; 1; 1];
          [1; 1; 1; 1; 1; 1];
          [1; 1; 1; 1; 1; 1];
          [0; 1; 1; 1; 1; 0]]%Z.

(** [AggregateSegmenter(color_deconvoluter, struct_elem, cell_max_area,
    cell_min_circularity, border)] *)
Definition init (deconv : ndarray rgb -> nat -> nat -> rgb) (se : kernel)
    (max_area min_circ : pynum) (b : Z) : AggregateSegmenter :=
  {| color_deconvoluter := deconv;
     struct_elem := se;
     cell_max_area := max_area;
     min_circularity := min_circ;
     small_struct_element := small_struct_element_literal;
     border := b |}.

(** The defaults [cell_max_area=4000, cell_min_circularity=.8, border=7]. *)
Definition init_default (deconv : ndarray rgb -> nat -> nat -> rgb)
    (se : kernel) : AggregateSegmenter :=
  init deconv se (PyInt 4000) (PyFloat 0x1.999999999999ap-1%float) 7%Z.

(* ------------------------------------------------------------------ *)
(** ** The stages of [segment]

    Line numbers are those of segmenters.py; aggregate_processing.py has the
    same statements 87 or 89 lines earlier. *)

(** [np.array(np_image[:, :, 3]).astype(np.uint8)] (line 133) *)
Definition alpha_of (np_image : ndarray rgba) : ndarray Z :=
  tabulate (nrows np_image) (ncols np_image)
    (fun i j => to_uint8 (snd (get (0, 0, 0, 0)%Z np_image i j))).

(** [np.array(np_image[:, :, 0:3]).astype(np.uint8)] (line 134) *)
Definition image_of (np_image : ndarray rgba) : ndarray rgb :=
  tabulate (nrows np_image) (ncols np_image)
    (fun i j => let '(c0, c1, c2, _) := get (0, 0, 0, 0)%Z np_image i j in
                (to_uint8 c0, to_uint8 c1, to_uint8 c2)).

(** [self._color_deconvoluter.transform(image_rgb)] (line 138) *)
Definition transform (S : AggregateSegmenter) (image_rgb : ndarray rgb)
    : ndarray rgb :=
  tabulate (nrows image_rgb) (ncols image_rgb) (color_deconvoluter S image_rgb).

(** The binary mask of line 142. *)
Definition otsu_binary (L : collaborators) (image_grey alpha : ndarray Z)
    : ndarray Z :=
  tabulate (nrows image_grey) (ncols image_grey)
    (snd (otsu_threshold_with_mask L image_grey alpha)).

(** [[i for i, h in enumerate(hierarchy[0]) if h[3] >= 0]] (line 154) *)
Definition contour_idx (hierarchy0 : list hierarchy_row) : list nat :=
  map fst (filter (fun ih => (0 <=? parent (snd ih))%Z)
             (combine (seq 0 (length hierarchy0)) hierarchy0)).

(** [l[i]] on a Python list, for an index that is not negative. *)
Definition list_item {A : Type} (l : list A) (i : nat) : result A :=
  match nth_error l i with
  | Some a => Ok a
  | None => Raise IndexError
  end.

(** [4 * np.pi * convex_area / (perimeter * perimeter)] (line 163) *)
Definition circularity_of (convex_area perimeter : float) : result float :=
  py_float_div (4 * np_pi * convex_area)%float (perimeter * perimeter)%float.

(** [convex_area < (self._cell_max_area / 10)] (line 166) *)
Definition small_area (S : AggregateSegmenter) (convex_area : float) : bool :=
  float_lt_num convex_area (py2_div (cell_max_area S) 10).

(** [(convex_area < self._cell_max_area/2) and
     (circularity > self._min_circularity)] (line 170) *)
Definition inclusion (S : AggregateSegmenter) (convex_area circularity : float)
    : bool :=
  float_lt_num convex_area (py2_div (cell_max_area S) 2) &&
  float_gt_num circularity (min_circularity S).

(** The body of the loop over the hole contours (lines 157-171). *)
Definition clean_contour (L : collaborators) (S : AggregateSegmenter)
    (contours2 : list contour) (internal_binary : ndarray Z) (i : nat)
    : result (ndarray Z) :=
  contour <- list_item contours2 i ;;
  let convex_hull := convexHull L contour in
  let convex_area := contourArea L convex_hull in
  let perimeter := arcLength L convex_hull in
  circularity <- circularity_of convex_area perimeter ;;
  let internal_binary :=
    if small_area S convex_area
    then drawContours L internal_binary convex_hull else internal_binary in
  let internal_binary :=
    if inclusion S convex_area circularity
    then drawContours L internal_binary convex_hull else internal_binary in
  Ok internal_binary.

(** [for i in contour_idx: ...] (lines 156-171) *)
Fixpoint clean_contours (L : collaborators) (S : AggregateSegmenter)
    (contours2 : list contour) (idx : list nat) (internal_binary : ndarray Z)
    : result (ndarray Z) :=
  match idx with
  | [] => Ok internal_binary
  | i :: rest =>
      b <- clean_contour L S contours2 internal_binary i ;;
      clean_contours L S contours2 rest b
  end.

(** The hulls the loop paints, in the order of the calls of
    [cv2.drawContours], or the exception it stops on. *)
Fixpoint painted_hulls (L : collaborators) (S : AggregateSegmenter)
    (contours2 : list contour) (idx : list nat) : result (list contour) :=
  match idx with
  | [] => Ok []
  | i :: rest =>
      contour <- list_item contours2 i ;;
      let convex_hull := convexHull L contour in
      let convex_area := contourArea L convex_hull in
      circularity <- circularity_of convex_area (arcLength L convex_hull) ;;
      hulls <- painted_hulls L S contours2 rest ;;
      Ok ((if small_area S convex_area then [convex_hull] else []) ++
          (if inclusion S convex_area circularity then [convex_hull] else []) ++
          hulls)
  end.

(** One call of [cv2.drawContours] per hull. *)
Definition paint (L : collaborators) (hulls : list contour) (m : ndarray Z)
    : ndarray Z :=
  fold_left (drawContours L) hulls m.

(** Closing, then opening twice (lines 174-175). *)
Definition smooth (S : AggregateSegmenter) (internal_binary : ndarray Z)
    : ndarray Z :=
  let internal_binary :=
    morphologyEx internal_binary MORPH_CLOSE (struct_elem S) 1 in
  morphologyEx internal_binary MORPH_OPEN (struct_elem S) 2.

(** [dt = cv2.distanceTransform(internal_binary, cv2.cv.CV_DIST_L2, 3)]
    (line 182) *)
Definition distance_field (L : collaborators) (internal_binary : ndarray Z)
    : ndarray float :=
  tabulate (nrows internal_binary) (ncols internal_binary)
    (distanceTransform L internal_binary).

(** [image_dec[internal_binary == 0] = [255,255,255]] (line 184) *)
Definition whiten (image_dec : ndarray rgb) (internal_binary : ndarray Z)
    : ndarray rgb :=
  set_where black image_dec
    (fun i j => Z.eqb (get 0%Z internal_binary i j) 0) white.

(** [maximum_filter(dt, size=9) == dt] (line 187) *)
Definition local_max_ind (dt : ndarray float) (i j : nat) : bool :=
  PrimFloat.eqb (get 0%float (maximum_filter dt 9) i j) (get 0%float dt i j).

(** The marker mask (lines 190-192). *)
Definition marker_mask (dt : ndarray float) (internal_binary : ndarray Z)
    : ndarray Z :=
  let markers := astype_uint8 (np_zeros (nrows dt) (ncols dt)) in
  let markers := set_where 0%Z markers (local_max_ind dt) 255%Z in
  set_where 0%Z markers (fun i j => Z.eqb (get 0%Z internal_binary i j) 0) 0%Z.

(** Dilation and labelling of the markers (lines 196-200). *)
Definition label_markers (S : AggregateSegmenter) (markers : ndarray Z)
    : ndarray Z * Z :=
  let markers := dilate markers (struct_elem S) 2 in
  let markers := astype_int32 markers in
  label markers ones3x3.

(** The border layer (lines 203-205). *)
Definition border_layer (S : AggregateSegmenter) (internal_binary : ndarray Z)
    : ndarray Z :=
  let borders := dilate internal_binary (struct_elem S) 1 in
  sub_uint8 borders internal_binary.

(** [256 if nb_labels < 255 else (nb_labels + 1)] (line 213) *)
Definition marker_color_of (nb_labels : Z) : Z :=
  if (nb_labels <? 255)%Z then 256%Z else (nb_labels + 1)%Z.

(** The colour code of the markers (lines 212-215). *)
Definition encode_markers (markers : ndarray Z) (nb_labels : Z)
    (borders : ndarray Z) : ndarray Z :=
  let border_color := 255%Z in
  let marker_color := marker_color_of nb_labels in
  let markers :=
    set_where 0%Z markers (fun i j => Z.eqb (get 0%Z markers i j) border_color)
      (to_int32 marker_color) in
  set_where 0%Z markers (fun i j => Z.eqb (get 0%Z borders i j) 255) border_color.

(** [cv2.watershed(image_dec, markers)] (line 217) *)
Definition flood (L : collaborators) (image_dec : ndarray rgb)
    (markers : ndarray Z) : ndarray Z :=
  tabulate (nrows markers) (ncols markers) (watershed L image_dec markers).

(** Back to a mask of 0 and 255 (lines 223-225). *)
Definition collapse (markers : ndarray Z) : ndarray Z :=
  let markers :=
    set_where 0%Z markers
      (fun i j => (get 0%Z markers i j <? 0)%Z || Z.eqb (get 0%Z markers i j) 255)
      0%Z in
  let markers :=
    set_where 0%Z markers (fun i j => (0 <? get 0%Z markers i j)%Z) 255%Z in
  astype_uint8 markers.

(** Erosion, then dilation with the small element (lines 228-231). *)
Definition sharpen (S : AggregateSegmenter) (markers : ndarray Z) : ndarray Z :=
  let markers := morphologyEx markers MORPH_ERODE (struct_elem S) 1 in
  let markers := morphologyEx markers MORPH_DILATE (small_struct_element S) 1 in
  astype_uint8 markers.

(** Lines 174-231: what follows the loop over the contours. *)
Definition separate (L : collaborators) (S : AggregateSegmenter)
    (image_dec : ndarray rgb) (internal_binary : ndarray Z) : ndarray Z :=
  let internal_binary := smooth S internal_binary in
  let dt := distance_field L internal_binary in
  let image_dec := whiten image_dec internal_binary in
  let markers := marker_mask dt internal_binary in
  let '(markers, nb_labels) := label_markers S markers in
  let borders := border_layer S internal_binary in
  let markers := encode_markers markers nb_labels borders in
  let markers := flood L image_dec markers in
  sharpen S (collapse markers).

(** The mask line 142 computes for a tile (lines 133-142). *)
Definition initial_mask (L : collaborators) (S : AggregateSegmenter)
    (np_image : ndarray rgba) : ndarray Z :=
  otsu_binary L
    (cvtColor_RGB2GRAY (transform S (cvtColor_BGR2RGB (image_of np_image))))
    (alpha_of np_image).

(** Modelled from the spec: [otsu_threshold_with_mask] belongs to
    helpers.datamining.segmenter, which is not among the source files.  The
    specification (4.1) has it return an empty, all-zero mask when the
    validity mask is entirely empty. *)
Definition empty_validity_gives_empty_mask (L : collaborators) : Prop :=
  forall image_grey alpha, all_zero alpha ->
    forall i j, snd (otsu_threshold_with_mask L image_grey alpha) i j = 0%Z.

(** [cv2.findContours] traces nothing in an image without a set pixel, and
    the Python binding then gives None for the hierarchy. *)
Definition blank_image_has_no_contours (L : collaborators) : Prop :=
  forall img, all_zero img -> findContours L img = ([], None).

(* ------------------------------------------------------------------ *)
(** ** cytomine-applications/util/dataset/segmenters.py *)

Module Segmenters.

(** [AggregateSegmenter.segment] (lines 125-231) *)
Definition segment (L : collaborators) (S : AggregateSegmenter)
    (np_image : ndarray rgba) : result (ndarray Z) :=
  let alpha := alpha_of np_image in
  let image := image_of np_image in
  let image_rgb := cvtColor_BGR2RGB image in
  let image_dec := transform S image_rgb in
  let image_grey := cvtColor_RGB2GRAY image_dec in
  let internal_binary := otsu_binary L image_grey alpha in
  let internal_binary_copy := internal_binary in
  let '(contours2, hierarchy) := findContours L internal_binary_copy in
  match hierarchy with
  | None => Ok (np_zeros (nrows alpha) (ncols alpha))
  | Some hierarchy0 =>
      internal_binary <-
        clean_contours L S contours2 (contour_idx hierarchy0) internal_binary ;;
      Ok (separate L S image_dec internal_binary)
  end.

End Segmenters.

(* ------------------------------------------------------------------ *)
(** ** cytomine-datamining/algorithms/thyroid/aggregate_processing.py *)

Module AggregateProcessing.

(** [hierarchy[0]] (line 65): None has no items. *)
Definition subscript0 (hierarchy : option (list hierarchy_row))
    : result (list hierarchy_row) :=
  match hierarchy with
  | None => Raise TypeError
  | Some hierarchy0 => Ok hierarchy0
  end.

(** The loop of lines 67-82, statement by statement. *)
Fixpoint fill_loop (L : collaborators) (S : AggregateSegmenter)
    (contours2 : list contour) (idx : list nat) (internal_binary : ndarray Z)
    : result (ndarray Z) :=
  match idx with
  | [] => Ok internal_binary
  | i :: rest =>
      contour <- list_item contours2 i ;;
      let convex_hull := convexHull L contour in
      let convex_area := contourArea L convex_hull in
      let perimeter := arcLength L convex_hull in
      circularity <-
        py_float_div (4 * np_pi * convex_area)%float
                     (perimeter * perimeter)%float ;;
      let internal_binary :=
        if float_lt_num convex_area (py2_div (cell_max_area S) 10)
        then set_where 0%Z internal_binary (filled L convex_hull) 255%Z
        else internal_binary in
      let internal_binary :=
        if float_lt_num convex_area (py2_div (cell_max_area S) 2) &&
           float_gt_num circularity (min_circularity S)
        then set_where 0%Z internal_binary (filled L convex_hull) 255%Z
        else internal_binary in
      fill_loop L S contours2 rest internal_binary
  end.

(** [AggregateSegmenter.segment] (lines 38-142) *)
Definition segment (L : collaborators) (S : AggregateSegmenter)
    (np_image : ndarray rgba) : result (ndarray Z) :=
  let alpha := alpha_of np_image in
  let image := image_of np_image in
  let image_rgb := cvtColor_BGR2RGB image in
  let image_dec := transform S image_rgb in
  let image_grey := cvtColor_RGB2GRAY image_dec in
  let internal_binary := otsu_binary L image_grey alpha in
  let internal_binary_copy := internal_binary in
  let '(contours2, hierarchy) := findContours L internal_binary_copy in
  hierarchy0 <- subscript0 hierarchy ;;
  let contour_idx :=
    map fst (filter (fun ih => (0 <=? parent (snd ih))%Z)
               (combine (seq 0 (length hierarchy0)) hierarchy0)) in
  internal_binary <- fill_loop L S contours2 contour_idx internal_binary ;;
  (* lines 85-86 *)
  let internal_binary :=
    erode (dilate internal_binary (struct_elem S) 1) (struct_elem S) 1 in
  let internal_binary :=
    dilate (erode internal_binary (struct_elem S) 2) (struct_elem S) 2 in
  (* lines 93-95 *)
  let dt :=
    tabulate (nrows internal_binary) (ncols internal_binary)
      (distanceTransform L internal_binary) in
  let image_dec :=
    set_where black image_dec
      (fun i j => Z.eqb (get 0%Z internal_binary i j) 0) white in
  (* lines 98-103 *)
  let filtered := maximum_filter dt 9 in
  let markers := astype_uint8 (np_zeros (nrows dt) (ncols dt)) in
  let markers :=
    set_where 0%Z markers
      (fun i j => PrimFloat.eqb (get 0%float filtered i j) (get 0%float dt i j))
      255%Z in
  let markers :=
    set_where 0%Z markers
      (fun i j => Z.eqb (get 0%Z internal_binary i j) 0) 0%Z in
  (* lines 107-111 *)
  let markers := dilate markers (struct_elem S) 2 in
  let markers := astype_int32 markers in
  let '(markers, nb_labels) := label markers ones3x3 in
  (* lines 114-116 *)
  let borders := dilate internal_binary (struct_elem S) 1 in
  let borders := sub_uint8 borders internal_binary in
  (* lines 123-126 *)
  let border_color := 255%Z in
  let marker_color :=
    if (nb_labels <? 255)%Z then 256%Z else (nb_labels + 1)%Z in
  let markers :=
    set_where 0%Z markers
      (fun i j => Z.eqb (get 0%Z markers i j) border_color)
      (to_int32 marker_color) in
  let markers :=
    set_where 0%Z markers
      (fun i j => Z.eqb (get 0%Z borders i j) 255) border_color in
  (* line 128 *)
  let markers :=
    tabulate (nrows markers) (ncols markers) (watershed L image_dec markers) in
  (* lines 134-136 *)
  let markers :=
    set_where 0%Z markers
      (fun i j => (get 0%Z markers i j <? 0)%Z || Z.eqb (get 0%Z markers i j) 255)
      0%Z in
  let markers :=
    set_where 0%Z markers (fun i j => (0 <? get 0%Z markers i j)%Z) 255%Z in
  let markers := astype_uint8 markers in
  (* lines 139-142 *)
  let markers := erode markers (struct_elem S) 1 in
  let markers := dilate markers (small_struct_element S) 1 in
  Ok (astype_uint8 markers).

End AggregateProcessing.

(* ------------------------------------------------------------------ *)
(** ** SlideSegmenter (segmenters.py, lines 36-99) *)

(** [cv2.threshold(img, thresh, maxval, cv2.THRESH_BINARY_INV)[1]] on an
    8-bit image, for an int [thresh]: 0 above the threshold, [maxval]
    elsewhere. *)
Definition threshold_binary_inv (img : ndarray Z) (thresh maxval : Z)
    : ndarray Z :=
  tabulate (nrows img) (ncols img)
    (fun i j => if (thresh <? get 0%Z img i j)%Z then 0%Z else maxval).

(** The array of shape [(h, w)] filled with [v]. *)
Definition np_full (h w : nat) (v : Z) : ndarray Z := tabulate h w (fun _ _ => v).

(** [a] is nowhere above [b]: the two have one shape and every read of [a]
    is at most the same read of [b]. *)
Definition below (a b : ndarray Z) : Prop :=
  nrows a = nrows b /\ ncols a = ncols b /\
  forall d i j, (get d a i j <= get d b i j)%Z.

Module Slide.

(** The fields [__init__] stores (lines 69-81); [color_deconvoluter] is kept
    as its [transform], the iteration counts are not negative. *)
Record SlideSegmenter : Type := {
  color_deconvoluter : ndarray rgb -> nat -> nat -> rgb;
  threshold : Z;
  struct_elem : kernel;
  nb_morph_iter : list nat
}.

(** [SlideSegmenter(color_deconvoluter, threshold, struct_elem,
    nb_morph_iter)]: None for the element gives the 7 x 7 literal of lines
    73-80, None for the counts gives [[1, 3, 7]]. *)
Definition init (deconv : ndarray rgb -> nat -> nat -> rgb) (thresh : Z)
    (se : option kernel) (iters : option (list nat)) : SlideSegmenter :=
  {| color_deconvoluter := deconv;
     threshold := thresh;
     struct_elem :=
       match se with
       | Some k => k
       | None =>
           matrix [[0; 0; 1; 1; 1; 0; 0];
                   [0; 1; 1; 1; 1; 1; 0];
                   [1; 1; 1; 1; 1; 1; 1];
                   [1; 1; 1; 1; 1; 1; 1];
                   [1; 1; 1; 1; 1; 1; 1];
                   [0; 1; 1; 1; 1; 1; 0];
                   [0; 0; 1; 1; 1; 0; 0]]%Z
       end;
     nb_morph_iter :=
       match iters with
       | Some l => l
       | None => [1; 3; 7]
       end |}.

(** The segmenter with another threshold. *)
Definition with_threshold (S : SlideSegmenter) (thresh : Z) : SlideSegmenter :=
  {| color_deconvoluter := color_deconvoluter S;
     threshold := thresh;
     struct_elem := struct_elem S;
     nb_morph_iter := nb_morph_iter S |}.

(** The grey image of lines 84-87. *)
Definition grey_of (S : SlideSegmenter) (np_image : ndarray rgb) : ndarray Z :=
  let tmp_image :=
    tabulate (nrows np_image) (ncols np_image) (color_deconvoluter S np_image) in
  cvtColor_RGB2GRAY tmp_image.

(** [SlideSegmenter.segment] (lines 83-99) *)
Definition segment (S : SlideSegmenter) (np_image : ndarray rgb)
    : result (ndarray Z) :=
  let tmp_image :=
    tabulate (nrows np_image) (ncols np_image) (color_deconvoluter S np_image) in
  let tmp_image := cvtColor_RGB2GRAY tmp_image in
  let binary := threshold_binary_inv tmp_image (threshold S) 255 in
  n0 <- list_item (nb_morph_iter S) 0 ;;
  let binary := morphologyEx binary MORPH_CLOSE (struct_elem S) n0 in
  n1 <- list_item (nb_morph_iter S) 1 ;;
  let binary := morphologyEx binary MORPH_OPEN (struct_elem S) n1 in
  n2 <- list_item (nb_morph_iter S) 2 ;;
  let binary := morphologyEx binary MORPH_CLOSE (struct_elem S) n2 in
  Ok binary.

End Slide.

(* ------------------------------------------------------------------ *)
(** ** Answers of the collaborators used in the examples *)

(** A colour deconvoluter that hands the image back. *)
Definition keep_colours (img : ndarray rgb) (i j : nat) : rgb :=
  get black img i j.

(** The segmenter with the standard element and the default arguments. *)
Definition default_segmenter : AggregateSegmenter :=
  init_default keep_colours get_standard_struct_elem.

(** Twice the signed area of a closed polygon, then its half in absolute
    value: what [cv2.contourArea] computes on integer points. *)
Definition polygon_area (c : contour) : float :=
  let twice :=
    fold_right Z.add 0%Z
      (map (fun pq => (fst (fst pq) * snd (snd pq) - snd (fst pq) * fst (snd pq))%Z)
           (combine c (tl c ++ firstn 1 c))) in
  (float_of_Z (Z.abs twice) * 0.5)%float.

(** The length of a closed polygon. *)
Definition polygon_length (c : contour) : float :=
  fold_right PrimFloat.add 0%float
    (map (fun pq =>
            PrimFloat.sqrt
              (float_of_Z ((fst (snd pq) - fst (fst pq)) ^ 2 +
                           (snd (snd pq) - snd (fst pq)) ^ 2)))
         (combine c (tl c ++ firstn 1 c))).

(** The answers on a tile in which nothing is foreground: the mask is empty,
    no contour is traced and the hierarchy is None. *)
Definition answers_no_foreground : collaborators :=
  {| otsu_threshold_with_mask := fun _ _ => (0%float, fun _ _ => 0%Z);
     findContours := fun _ => ([], None);
     convexHull := fun c => c;
     contourArea := polygon_area;
     arcLength := polygon_length;
     filled := fun _ _ _ => false;
     distanceTransform := fun _ _ _ => 0%float;
     watershed := fun _ markers i j => get 0%Z markers i j |}.

(** A 2 x 2 tile whose alpha channel is zero everywhere. *)
Definition transparent_tile : ndarray rgba :=
  tabulate 2 2 (fun _ _ => (10, 20, 30, 0)%Z).

(** Answers in which the tracing reports an outer contour and, inside it, a
    hole contour made of the single point (2, 2).  They exercise the paths of
    [segment]; cv2 itself traces a hole over at least four pixels (see
    [answers_pixel_hole]). *)
Definition answers_point_hole : collaborators :=
  {| otsu_threshold_with_mask := fun _ _ => (127%float, fun _ _ => 255%Z);
     findContours := fun _ =>
       ([[(1, 1); (1, 3); (3, 3); (3, 1)]; [(2, 2)]]%Z,
        Some [(-1, -1, 1, -1); (-1, -1, -1, 0)]%Z);
     convexHull := fun c => c;
     contourArea := polygon_area;
     arcLength := polygon_length;
     filled := fun _ _ _ => false;
     distanceTransform := fun _ _ _ => 0%float;
     watershed := fun _ markers i j => get 0%Z markers i j |}.

(** A 5 x 5 mask with one foreground pixel in the middle. *)
Definition dot_mask : ndarray Z :=
  matrix [[0; 0; 0; 0; 0];
          [0; 0; 0; 0; 0];
          [0; 0; 255; 0; 0];
          [0; 0; 0; 0; 0];
          [0; 0; 0; 0; 0]]%Z.

(** A 1 x 3 element whose only set cell is left of the anchor. *)
Definition left_elem : kernel := matrix [[1; 0; 0]]%Z.

(** The distance field of [dot_mask]: 1 on its pixel, 0 elsewhere. *)
Definition dot_field : ndarray float :=
  tabulate 5 5 (fun i j => if (i =? 2) && (j =? 2) then 1%float else 0%float).

(** A row of markers as a labelling with 300 seeds can leave it: the seed
    numbered 255, a background pixel and the seed numbered 7. *)
Definition markers_of_300 : ndarray Z := matrix [[255; 0; 7]]%Z.

(** A border layer set on the middle pixel of that row. *)
Definition borders_of_300 : ndarray Z := matrix [[0; 255; 0]]%Z.

(** Isolated pixels four rows and six columns apart in a 41 x 57 raster, each
    dilated by the standard element: discs that leave single background
    pixels between them. *)
Definition disc_grid : ndarray Z :=
  dilate
    (tabulate 41 57
       (fun i j => if (4 <=? i) && (i <? 37) && (4 <=? j) && (j <? 53) &&
                      ((i - 4) mod 4 =? 0) && ((j - 4) mod 6 =? 0)
                   then 255%Z else 0%Z))
    get_standard_struct_elem 1.

(** Answers in which the tracing reports one outer contour and no hole; the
    mask of the threshold is full and the flooding leaves the markers as
    they are. *)
Definition answers_outer_only : collaborators :=
  {| otsu_threshold_with_mask := fun _ _ => (127%float, fun _ _ => 255%Z);
     findContours := fun _ =>
       ([[(1, 1); (1, 3); (3, 3); (3, 1)]]%Z, Some [(-1, -1, -1, -1)]%Z);
     convexHull := fun c => c;
     contourArea := polygon_area;
     arcLength := polygon_length;
     filled := fun _ _ _ => false;
     distanceTransform := fun _ _ _ => 1%float;
     watershed := fun _ markers i j => get 0%Z markers i j |}.

(** A slide segmenter with the default element and counts. *)
Definition default_slide : Slide.SlideSegmenter :=
  Slide.init keep_colours 120 None None.

(** A 3 x 3 RGB image: dark on the left column, light elsewhere. *)
Definition two_tone : ndarray rgb :=
  tabulate 3 3 (fun _ j => if j =? 0 then (10, 10, 10)%Z
                            else (200, 200, 200)%Z).

(** A 3 x 3 RGB image that is dark everywhere. *)
Definition dark_image : ndarray rgb := tabulate 3 3 (fun _ _ => (10, 10, 10)%Z).

(** A 5 x 5 mask that is foreground but for its middle pixel. *)
Definition holed_mask : ndarray Z :=
  tabulate 5 5 (fun i j => if (i =? 2) && (j =? 2) then 0%Z else 255%Z).

(** Answers for a tile whose mask is [holed_mask]: the outer contour, and
    the contour of the hole, the four neighbours of the middle pixel, whose
    filled hull is that pixel with its four neighbours. *)
Definition answers_pixel_hole : collaborators :=
  {| otsu_threshold_with_mask := fun _ _ =>
       (127%float, fun i j => if (i =? 2) && (j =? 2) then 0%Z else 255%Z);
     findContours := fun _ =>
       ([[(0, 0); (0, 4); (4, 4); (4, 0)]; [(2, 1); (1, 2); (2, 3); (3, 2)]]%Z,
        Some [(-1, -1, 1, -1); (-1, -1, -1, 0)]%Z);
     convexHull := fun c => c;
     contourArea := polygon_area;
     arcLength := polygon_length;
     filled := fun _ i j =>
       (i + j <=? 5) && (3 <=? i + j) && (i <=? j + 1) && (j <=? i + 1);
     distanceTransform := fun _ _ _ => 1%float;
     watershed := fun _ markers i j => get 0%Z markers i j |}.

(** A 5 x 5 opaque dark tile. *)
Definition opaque_tile : ndarray rgba :=
  tabulate 5 5 (fun _ _ => (10, 20, 30, 255)%Z).

(* ================================================================== *)
(** * Properties *)

Unset Implicit Arguments.

(** ** Arrays *)

Lemma get_tabulate (A : Type) (d : A) (h w : nat) (f : nat -> nat -> A)
    (i j : nat) :
  get d (tabulate h w f) i j = if (i <? h) && (j <? w) then f i j else d.
Proof.
  unfold get, tabulate; simpl.
  destruct (i <? h) eqn:Hi; simpl; [|reflexivity].
  destruct (j <? w) eqn:Hj; simpl; [|reflexivity].
  apply Nat.ltb_lt in Hi, Hj.
  rewrite (nth_indep _ [] (map (f 0) (seq 0 w)))
    by (rewrite length_map, length_seq; exact Hi).
  rewrite (map_nth (fun r => map (f r) (seq 0 w)) (seq 0 h) 0 i).
  rewrite seq_nth by exact Hi; simpl.
  rewrite (nth_indep _ d (f i 0)) by (rewrite length_map, length_seq; exact Hj).
  rewrite (map_nth (f i) (seq 0 w) 0 j).
  rewrite seq_nth by exact Hj; reflexivity.
Qed.

Lemma get_tabulate_in (A : Type) (d : A) (h w : nat) (f : nat -> nat -> A)
    (i j : nat) :
  i < h -> j < w -> get d (tabulate h w f) i j = f i j.
Proof.
  intros Hi Hj; rewrite get_tabulate.
  apply Nat.ltb_lt in Hi, Hj; rewrite Hi, Hj; reflexivity.
Qed.

Lemma get_outside (A : Type) (d : A) (a : ndarray A) (i j : nat) :
  ~ (i < nrows a /\ j < ncols a) -> get d a i j = d.
Proof.
  intros H; unfold get.
  destruct (i <? nrows a) eqn:Hi; simpl; [|reflexivity].
  destruct (j <? ncols a) eqn:Hj; simpl; [|reflexivity].
  apply Nat.ltb_lt in Hi, Hj; tauto.
Qed.

Lemma tabulate_ext (A : Type) (h w : nat) (f g : nat -> nat -> A) :
  (forall i j, i < h -> j < w -> f i j = g i j) ->
  tabulate h w f = tabulate h w g.
Proof.
  intros H; unfold tabulate; f_equal.
  apply map_ext_in; intros i Hi; apply in_seq in Hi.
  apply map_ext_in; intros j Hj; apply in_seq in Hj.
  apply H; lia.
Qed.

Lemma in_positions (h w : nat) (p : nat * nat) :
  In p (positions h w) <-> fst p < h /\ snd p < w.
Proof.
  destruct p as [i j]; unfold positions; rewrite in_prod_iff, !in_seq; simpl; lia.
Qed.

Lemma all_zero_np_zeros (h w : nat) : all_zero (np_zeros h w).
Proof.
  intros i j Hi Hj; unfold np_zeros in *; simpl in *.
  rewrite get_tabulate_in; auto.
Qed.

Lemma all_zero_tabulate (h w : nat) (f : nat -> nat -> Z) :
  (forall i j, i < h -> j < w -> f i j = 0%Z) -> all_zero (tabulate h w f).
Proof.
  intros H i j Hi Hj; simpl in *; rewrite get_tabulate_in; auto.
Qed.

Lemma get_set_where (A : Type) (d : A) (a : ndarray A)
    (mask : nat -> nat -> bool) (v : A) (i j : nat) :
  i < nrows a -> j < ncols a ->
  get d (set_where d a mask v) i j = if mask i j then v else get d a i j.
Proof. intros; unfold set_where; rewrite get_tabulate_in; auto. Qed.

(** ** The early return and the missing guard *)

Lemma segmenters_returns_zeros (L : collaborators) (S : AggregateSegmenter)
    (np_image : ndarray rgba) :
  snd (findContours L (initial_mask L S np_image)) = None ->
  Segmenters.segment L S np_image
  = Ok (np_zeros (nrows np_image) (ncols np_image)).
Proof.
  intros H; unfold Segmenters.segment; fold (initial_mask L S np_image).
  destruct (findContours L _) as [contours2 hierarchy]; simpl in H; subst.
  reflexivity.
Qed.

Lemma aggregate_processing_raises (L : collaborators) (S : AggregateSegmenter)
    (np_image : ndarray rgba) :
  snd (findContours L (initial_mask L S np_image)) = None ->
  AggregateProcessing.segment L S np_image = Raise TypeError.
Proof.
  intros H; unfold AggregateProcessing.segment;
    fold (initial_mask L S np_image).
  destruct (findContours L _) as [contours2 hierarchy]; simpl in H; subst.
  reflexivity.
Qed.

Lemma fill_loop_clean_contours (L : collaborators) (S : AggregateSegmenter)
    (contours2 : list contour) (idx : list nat) (m : ndarray Z) :
  AggregateProcessing.fill_loop L S contours2 idx m
  = clean_contours L S contours2 idx m.
Proof.
  revert m; induction idx as [|i rest IH]; intros m; simpl; [reflexivity|].
  unfold clean_contour, circularity_of, small_area, inclusion, drawContours.
  destruct (list_item contours2 i) as [c|e]; simpl; [|reflexivity].
  destruct (py_float_div _ _) as [circ|e]; simpl; [|reflexivity].
  apply IH.
Qed.

(** Past the subscript of the hierarchy the two copies run the same
    statements. *)
Lemma segment_past_subscript (L : collaborators)
    (S : AggregateSegmenter) (np_image : ndarray rgba)
    (hierarchy0 : list hierarchy_row) :
  snd (findContours L (initial_mask L S np_image)) = Some hierarchy0 ->
  AggregateProcessing.segment L S np_image = Segmenters.segment L S np_image.
Proof.
  intros H.
  unfold AggregateProcessing.segment, Segmenters.segment.
  fold (initial_mask L S np_image).
  destruct (findContours L (initial_mask L S np_image)) as [contours2 hierarchy].
  simpl in H; subst hierarchy.
  unfold AggregateProcessing.subscript0, bind at 1.
  fold (contour_idx hierarchy0).
  rewrite fill_loop_clean_contours.
  destruct (clean_contours L S contours2 (contour_idx hierarchy0)
              (initial_mask L S np_image)) as [b|e]; [|reflexivity].
  cbv beta iota zeta delta [bind separate label_markers smooth morphologyEx
    distance_field whiten marker_mask local_max_ind border_layer
    encode_markers marker_color_of flood collapse sharpen].
  match goal with
  | |- context [label ?x ?y] => destruct (label x y) as [markers nb_labels]
  end.
  reflexivity.
Qed.

(** C1: when the tracing yields no hierarchy, segmenters.py returns an
    all-zero mask of the shape of the tile, and aggregate_processing.py, which
    has no test for None, raises TypeError at [hierarchy[0]]. *)
Theorem no_hierarchy_outcomes (L : collaborators) (S : AggregateSegmenter)
    (np_image : ndarray rgba) :
  snd (findContours L (initial_mask L S np_image)) = None ->
  (exists mask,
      Segmenters.segment L S np_image = Ok mask /\
      nrows mask = nrows np_image /\ ncols mask = ncols np_image /\
      all_zero mask) /\
  AggregateProcessing.segment L S np_image = Raise TypeError.
Proof.
  intros H; split.
  - exists (np_zeros (nrows np_image) (ncols np_image)).
    split; [apply segmenters_returns_zeros; exact H|].
    split; [reflexivity|]. split; [reflexivity|].
    apply all_zero_np_zeros.
  - apply aggregate_processing_raises; exact H.
Qed.

Lemma no_hierarchy_outcomes_witness :
  (exists mask,
      Segmenters.segment answers_no_foreground default_segmenter
        transparent_tile = Ok mask /\
      nrows mask = 2 /\ ncols mask = 2 /\ all_zero mask) /\
  AggregateProcessing.segment answers_no_foreground default_segmenter
    transparent_tile = Raise TypeError.
Proof.
  apply (no_hierarchy_outcomes answers_no_foreground default_segmenter
           transparent_tile).
  reflexivity.
Defined.

Lemma initial_mask_all_zero (L : collaborators) (S : AggregateSegmenter)
    (np_image : ndarray rgba) :
  empty_validity_gives_empty_mask L ->
  all_zero (alpha_of np_image) ->
  all_zero (initial_mask L S np_image).
Proof.
  intros Hotsu Halpha; unfold initial_mask, otsu_binary.
  apply all_zero_tabulate; intros i j _ _.
  apply Hotsu; exact Halpha.
Qed.

(** C4: for a tile whose alpha channel is zero everywhere the mask of the
    threshold is empty and nothing is traced; segmenters.py then returns the
    all-zero mask of the shape of the tile, aggregate_processing.py raises
    TypeError. *)
Theorem empty_alpha_outcomes (L : collaborators) (S : AggregateSegmenter)
    (np_image : ndarray rgba) :
  empty_validity_gives_empty_mask L ->
  blank_image_has_no_contours L ->
  all_zero (alpha_of np_image) ->
  Segmenters.segment L S np_image
  = Ok (np_zeros (nrows np_image) (ncols np_image)) /\
  AggregateProcessing.segment L S np_image = Raise TypeError.
Proof.
  intros Hotsu Hblank Halpha.
  assert (Hnone : snd (findContours L (initial_mask L S np_image)) = None).
  { rewrite Hblank; [reflexivity|].
    apply initial_mask_all_zero; assumption. }
  split.
  - apply segmenters_returns_zeros; exact Hnone.
  - apply aggregate_processing_raises; exact Hnone.
Qed.

Lemma transparent_tile_alpha : all_zero (alpha_of transparent_tile).
Proof.
  intros i j Hi Hj; simpl in Hi, Hj.
  unfold alpha_of, transparent_tile; simpl nrows; simpl ncols.
  rewrite get_tabulate_in by assumption.
  rewrite get_tabulate_in by assumption.
  reflexivity.
Qed.

Lemma empty_alpha_outcomes_witness :
  Segmenters.segment answers_no_foreground default_segmenter transparent_tile
  = Ok (np_zeros 2 2) /\
  AggregateProcessing.segment answers_no_foreground default_segmenter
    transparent_tile = Raise TypeError.
Proof.
  apply (empty_alpha_outcomes answers_no_foreground default_segmenter
           transparent_tile).
  - intros image_grey alpha _ i j; reflexivity.
  - intros img _; reflexivity.
  - exact transparent_tile_alpha.
Defined.

(** C5: the two copies of [segment] do not compute the same function: on the
    transparent 2 x 2 tile one returns a mask and the other raises. *)
Theorem copies_disagree :
  Segmenters.segment answers_no_foreground default_segmenter transparent_tile
  = Ok (np_zeros 2 2) /\
  AggregateProcessing.segment answers_no_foreground default_segmenter
    transparent_tile = Raise TypeError /\
  AggregateProcessing.segment answers_no_foreground default_segmenter
    transparent_tile
  <> Segmenters.segment answers_no_foreground default_segmenter
       transparent_tile.
Proof.
  split; [reflexivity|]. split; [reflexivity|].
  intros H; discriminate H.
Qed.

(** ** Shapes *)

Lemma iter_shape (A : Type) (f : ndarray A -> ndarray A) (n : nat)
    (a : ndarray A) :
  (forall x, nrows (f x) = nrows x /\ ncols (f x) = ncols x) ->
  nrows (Nat.iter n f a) = nrows a /\ ncols (Nat.iter n f a) = ncols a.
Proof.
  intros Hf; induction n as [|n IH]; simpl; [split; reflexivity|].
  destruct (Hf (Nat.iter n f a)) as [Hr Hc]; rewrite Hr, Hc; exact IH.
Qed.

Lemma dilate_shape (img : ndarray Z) (k : kernel) (n : nat) :
  nrows (dilate img k n) = nrows img /\ ncols (dilate img k n) = ncols img.
Proof. apply iter_shape; intros x; split; reflexivity. Qed.

Lemma erode_shape (img : ndarray Z) (k : kernel) (n : nat) :
  nrows (erode img k n) = nrows img /\ ncols (erode img k n) = ncols img.
Proof. apply iter_shape; intros x; split; reflexivity. Qed.

Lemma morphologyEx_shape (img : ndarray Z) (op : morph_op) (k : kernel)
    (n : nat) :
  nrows (morphologyEx img op k n) = nrows img /\
  ncols (morphologyEx img op k n) = ncols img.
Proof.
  destruct op; simpl.
  - apply erode_shape.
  - apply dilate_shape.
  - destruct (dilate_shape (erode img k n) k n) as [-> ->]; apply erode_shape.
  - destruct (erode_shape (dilate img k n) k n) as [-> ->]; apply dilate_shape.
Qed.

Lemma fold_left_invariant (A B : Type) (P : A -> Prop) (f : A -> B -> A)
    (l : list B) (a : A) :
  P a -> (forall x b, In b l -> P x -> P (f x b)) -> P (fold_left f l a).
Proof.
  revert a; induction l as [|b l IH]; intros a Ha Hf; simpl; [exact Ha|].
  apply IH.
  - apply Hf; [left; reflexivity | exact Ha].
  - intros x b' Hb' Hx; apply Hf; [right; exact Hb' | exact Hx].
Qed.

Lemma label_shape (input : ndarray Z) (structure : kernel) :
  nrows (fst (label input structure)) = nrows input /\
  ncols (fst (label input structure)) = ncols input.
Proof.
  unfold label; apply fold_left_invariant.
  - split; reflexivity.
  - intros st p _ H; unfold label_visit.
    destruct (_ && _); [split; reflexivity | exact H].
Qed.

Lemma clean_contours_shape (L : collaborators) (S : AggregateSegmenter)
    (contours2 : list contour) (idx : list nat) (m b : ndarray Z) :
  clean_contours L S contours2 idx m = Ok b ->
  nrows b = nrows m /\ ncols b = ncols m.
Proof.
  revert m; induction idx as [|i rest IH]; intros m H; simpl in H.
  - injection H as <-; split; reflexivity.
  - unfold clean_contour in H.
    destruct (list_item contours2 i) as [c|e]; simpl in H; [|discriminate].
    destruct (circularity_of _ _) as [circ|e]; simpl in H; [|discriminate].
    apply IH in H; destruct H as [Hr Hc]; rewrite Hr, Hc.
    destruct (small_area S _), (inclusion S _ _); split; reflexivity.
Qed.

Lemma sharpen_shape (S : AggregateSegmenter) (m : ndarray Z) :
  nrows (sharpen S m) = nrows m /\ ncols (sharpen S m) = ncols m.
Proof. split; reflexivity. Qed.

Lemma collapse_shape (markers : ndarray Z) :
  nrows (collapse markers) = nrows markers /\
  ncols (collapse markers) = ncols markers.
Proof. unfold collapse, astype_uint8, set_where; split; reflexivity. Qed.

Lemma encode_markers_shape (markers borders : ndarray Z) (nb_labels : Z) :
  nrows (encode_markers markers nb_labels borders) = nrows markers /\
  ncols (encode_markers markers nb_labels borders) = ncols markers.
Proof. split; reflexivity. Qed.

Lemma marker_mask_shape (dt : ndarray float) (internal_binary : ndarray Z) :
  nrows (marker_mask dt internal_binary) = nrows dt /\
  ncols (marker_mask dt internal_binary) = ncols dt.
Proof. split; reflexivity. Qed.

Lemma flood_shape (L : collaborators) (image_dec : ndarray rgb)
    (markers : ndarray Z) :
  nrows (flood L image_dec markers) = nrows markers /\
  ncols (flood L image_dec markers) = ncols markers.
Proof. unfold flood; split; reflexivity. Qed.

Lemma distance_field_shape (L : collaborators) (m : ndarray Z) :
  nrows (distance_field L m) = nrows m /\
  ncols (distance_field L m) = ncols m.
Proof. unfold distance_field; split; reflexivity. Qed.

Lemma astype_int32_shape (a : ndarray Z) :
  nrows (astype_int32 a) = nrows a /\ ncols (astype_int32 a) = ncols a.
Proof. unfold astype_int32; split; reflexivity. Qed.

Lemma smooth_shape (S : AggregateSegmenter) (b : ndarray Z) :
  nrows (smooth S b) = nrows b /\ ncols (smooth S b) = ncols b.
Proof.
  unfold smooth.
  destruct (morphologyEx_shape
              (morphologyEx b MORPH_CLOSE (struct_elem S) 1) MORPH_OPEN
              (struct_elem S) 2) as [-> ->].
  apply morphologyEx_shape.
Qed.

Lemma label_markers_shape (S : AggregateSegmenter) (m : ndarray Z) :
  nrows (fst (label_markers S m)) = nrows m /\
  ncols (fst (label_markers S m)) = ncols m.
Proof.
  unfold label_markers.
  destruct (label_shape (astype_int32 (dilate m (struct_elem S) 2)) ones3x3)
    as [-> ->].
  destruct (astype_int32_shape (dilate m (struct_elem S) 2)) as [-> ->].
  apply dilate_shape.
Qed.

Lemma separate_shape (L : collaborators) (S : AggregateSegmenter)
    (image_dec : ndarray rgb) (b : ndarray Z) :
  nrows (separate L S image_dec b) = nrows b /\
  ncols (separate L S image_dec b) = ncols b.
Proof.
  unfold separate.
  pose proof (label_markers_shape S
                (marker_mask (distance_field L (smooth S b)) (smooth S b)))
    as Hs.
  destruct (label_markers S _) as [markers nb_labels].
  cbn [fst] in Hs.
  destruct (sharpen_shape S (collapse (flood L (whiten image_dec (smooth S b))
              (encode_markers markers nb_labels (border_layer S (smooth S b))))))
    as [-> ->].
  destruct (collapse_shape (flood L (whiten image_dec (smooth S b))
              (encode_markers markers nb_labels (border_layer S (smooth S b)))))
    as [-> ->].
  destruct (flood_shape L (whiten image_dec (smooth S b))
              (encode_markers markers nb_labels (border_layer S (smooth S b))))
    as [-> ->].
  destruct (encode_markers_shape markers (border_layer S (smooth S b))
              nb_labels) as [-> ->].
  destruct Hs as [-> ->].
  destruct (marker_mask_shape (distance_field L (smooth S b)) (smooth S b))
    as [-> ->].
  destruct (distance_field_shape L (smooth S b)) as [-> ->].
  apply smooth_shape.
Qed.

(** ** Masks of 0 and 255 *)

Lemma get_default_cases (A : Type) (d d' : A) (a : ndarray A) (i j : nat) :
  get d a i j = d \/ get d a i j = get d' a i j.
Proof.
  unfold get; destruct ((i <? nrows a) && (j <? ncols a)); [|left; reflexivity].
  destruct (Nat.lt_ge_cases j (length (nth i (cells a) []))) as [Hlt|Hge].
  - right; apply nth_indep; exact Hlt.
  - left; apply nth_overflow; exact Hge.
Qed.

Lemma get_bit255 (img : ndarray Z) (d : Z) (i j : nat) :
  binary_mask img -> bit255 d -> bit255 (get d img i j).
Proof.
  intros Hb Hd.
  destruct (get_default_cases Z d 0%Z img i j) as [->| ->]; [exact Hd|].
  destruct (Nat.lt_ge_cases i (nrows img)) as [Hi|Hi];
    [destruct (Nat.lt_ge_cases j (ncols img)) as [Hj|Hj]|].
  - apply Hb; assumption.
  - rewrite get_outside by lia; left; reflexivity.
  - rewrite get_outside by lia; left; reflexivity.
Qed.

Lemma probe_bit255 (img : ndarray Z) (k : kernel) (d : Z) (i j : nat)
    (p : nat * nat) :
  binary_mask img -> bit255 d -> bit255 (probe d img k i j p).
Proof.
  intros Hb Hd; unfold probe.
  destruct (_ && _); [apply get_bit255; assumption | exact Hd].
Qed.

Lemma fold_max_bit255 (l : list Z) :
  (forall x, In x l -> bit255 x) -> bit255 (fold_right Z.max 0%Z l).
Proof.
  induction l as [|x l IH]; intros H; simpl; [left; reflexivity|].
  destruct (H x (or_introl eq_refl)) as [-> | ->];
    destruct (IH (fun y Hy => H y (or_intror Hy))) as [-> | ->];
    unfold bit255; simpl; auto.
Qed.

Lemma fold_min_bit255 (l : list Z) :
  (forall x, In x l -> bit255 x) -> bit255 (fold_right Z.min 255%Z l).
Proof.
  induction l as [|x l IH]; intros H; simpl; [right; reflexivity|].
  destruct (H x (or_introl eq_refl)) as [-> | ->];
    destruct (IH (fun y Hy => H y (or_intror Hy))) as [-> | ->];
    unfold bit255; simpl; auto.
Qed.

Lemma binary_mask_tabulate (h w : nat) (f : nat -> nat -> Z) :
  (forall i j, i < h -> j < w -> bit255 (f i j)) ->
  binary_mask (tabulate h w f).
Proof.
  intros H i j Hi Hj; simpl in Hi, Hj.
  rewrite get_tabulate_in by assumption; apply H; assumption.
Qed.

Lemma dilate1_binary (k : kernel) (img : ndarray Z) :
  binary_mask img -> binary_mask (dilate1 k img).
Proof.
  intros Hb; apply binary_mask_tabulate; intros i j _ _.
  apply fold_max_bit255; intros x Hx.
  apply in_map_iff in Hx; destruct Hx as [p [<- _]].
  apply probe_bit255; [exact Hb | left; reflexivity].
Qed.

Lemma erode1_binary (k : kernel) (img : ndarray Z) :
  binary_mask img -> binary_mask (erode1 k img).
Proof.
  intros Hb; apply binary_mask_tabulate; intros i j _ _.
  apply fold_min_bit255; intros x Hx.
  apply in_map_iff in Hx; destruct Hx as [p [<- _]].
  apply probe_bit255; [exact Hb | right; reflexivity].
Qed.

Lemma dilate_binary (img : ndarray Z) (k : kernel) (n : nat) :
  binary_mask img -> binary_mask (dilate img k n).
Proof.
  intros Hb; unfold dilate; induction n as [|n IH]; simpl;
    [exact Hb | apply dilate1_binary; exact IH].
Qed.

Lemma erode_binary (img : ndarray Z) (k : kernel) (n : nat) :
  binary_mask img -> binary_mask (erode img k n).
Proof.
  intros Hb; unfold erode; induction n as [|n IH]; simpl;
    [exact Hb | apply erode1_binary; exact IH].
Qed.

Lemma morphologyEx_binary (img : ndarray Z) (op : morph_op) (k : kernel)
    (n : nat) :
  binary_mask img -> binary_mask (morphologyEx img op k n).
Proof.
  intros Hb; destruct op; simpl;
    auto using dilate_binary, erode_binary.
Qed.

Lemma astype_uint8_binary (a : ndarray Z) :
  binary_mask a -> binary_mask (astype_uint8 a).
Proof.
  intros Hb; apply binary_mask_tabulate; intros i j Hi Hj.
  destruct (Hb i j Hi Hj) as [-> | ->]; [left | right]; reflexivity.
Qed.

(** The value line 223-225 leave at a pixel that held [v]. *)
Lemma get_collapse (markers : ndarray Z) (i j : nat) :
  i < nrows markers -> j < ncols markers ->
  get 0%Z (collapse markers) i j
  = if ((get 0%Z markers i j <? 0)%Z || Z.eqb (get 0%Z markers i j) 255)
    then 0%Z
    else if (0 <? get 0%Z markers i j)%Z then 255%Z else 0%Z.
Proof.
  intros Hi Hj; unfold collapse, astype_uint8.
  simpl nrows; simpl ncols.
  rewrite get_tabulate_in by assumption.
  rewrite get_set_where by assumption.
  rewrite get_set_where by assumption.
  destruct ((get 0%Z markers i j <? 0)%Z) eqn:Hneg; simpl.
  - reflexivity.
  - destruct (Z.eqb (get 0%Z markers i j) 255) eqn:H255; simpl; [reflexivity|].
    destruct ((0 <? get 0%Z markers i j)%Z) eqn:Hpos; [reflexivity|].
    apply Z.ltb_ge in Hneg, Hpos.
    replace (get 0%Z markers i j) with 0%Z by lia; reflexivity.
Qed.

Lemma collapse_binary (markers : ndarray Z) : binary_mask (collapse markers).
Proof.
  intros i j Hi Hj; simpl in Hi, Hj.
  rewrite get_collapse by assumption.
  destruct (_ || _); [left; reflexivity|].
  destruct (0 <? _)%Z; [right | left]; reflexivity.
Qed.

Lemma sharpen_binary (S : AggregateSegmenter) (m : ndarray Z) :
  binary_mask m -> binary_mask (sharpen S m).
Proof.
  intros Hb; unfold sharpen.
  apply astype_uint8_binary, morphologyEx_binary, morphologyEx_binary; exact Hb.
Qed.

Lemma paint_binary (L : collaborators) (hulls : list contour)
    (m : ndarray Z) :
  binary_mask m -> binary_mask (paint L hulls m).
Proof.
  revert m; induction hulls as [|h hulls IH]; intros m Hb; [exact Hb|].
  apply IH; unfold drawContours, set_where.
  apply binary_mask_tabulate; intros i j Hi Hj.
  destruct (filled L h i j); [right; reflexivity | apply Hb; assumption].
Qed.

(** The smoothed mask holds only 0 and 255 when the mask of the threshold
    does. *)
Lemma smooth_binary (S : AggregateSegmenter) (b : ndarray Z) :
  binary_mask b -> binary_mask (smooth S b).
Proof.
  intros Hb; unfold smooth.
  apply morphologyEx_binary, morphologyEx_binary; exact Hb.
Qed.

Lemma separate_binary (L : collaborators) (S : AggregateSegmenter)
    (image_dec : ndarray rgb) (b : ndarray Z) :
  binary_mask (separate L S image_dec b).
Proof.
  unfold separate.
  destruct (label_markers S _) as [markers nb_labels].
  apply sharpen_binary, collapse_binary.
Qed.

Lemma initial_mask_shape (L : collaborators) (S : AggregateSegmenter)
    (np_image : ndarray rgba) :
  nrows (initial_mask L S np_image) = nrows np_image /\
  ncols (initial_mask L S np_image) = ncols np_image.
Proof. split; reflexivity. Qed.

Lemma segmenters_result_is_mask (L : collaborators) (S : AggregateSegmenter)
    (np_image : ndarray rgba) (out : ndarray Z) :
  Segmenters.segment L S np_image = Ok out ->
  nrows out = nrows np_image /\ ncols out = ncols np_image /\ binary_mask out.
Proof.
  unfold Segmenters.segment; fold (initial_mask L S np_image).
  destruct (findContours L (initial_mask L S np_image)) as [contours2 hierarchy].
  destruct hierarchy as [hierarchy0|].
  - destruct (clean_contours L S contours2 (contour_idx hierarchy0)
                (initial_mask L S np_image)) as [b|e] eqn:Hc; simpl;
      [|discriminate].
    intros H; injection H as <-.
    destruct (clean_contours_shape _ _ _ _ _ _ Hc) as [Hr Hw].
    destruct (separate_shape L S
                (transform S (cvtColor_BGR2RGB (image_of np_image))) b)
      as [-> ->].
    rewrite Hr, Hw.
    repeat split; apply separate_binary.
  - intros H; injection H as <-.
    repeat split.
    intros i j Hi Hj; left; apply all_zero_np_zeros; assumption.
Qed.

(** C10: a mask that either copy of [segment] returns has the height and the
    width of the tile and holds only 0 and 255, on the early return as after
    the flooding. *)
Theorem segment_result_is_mask (L : collaborators) (S : AggregateSegmenter)
    (np_image : ndarray rgba) (out : ndarray Z) :
  Segmenters.segment L S np_image = Ok out \/
  AggregateProcessing.segment L S np_image = Ok out ->
  nrows out = nrows np_image /\ ncols out = ncols np_image /\ binary_mask out.
Proof.
  intros [H|H]; [apply (segmenters_result_is_mask L S); exact H|].
  destruct (snd (findContours L (initial_mask L S np_image)))
    as [hierarchy0|] eqn:Hh.
  - rewrite (segment_past_subscript L S np_image hierarchy0 Hh) in H.
    apply (segmenters_result_is_mask L S); exact H.
  - rewrite (aggregate_processing_raises L S np_image Hh) in H; discriminate.
Qed.

Lemma segment_result_is_mask_witness :
  nrows (np_zeros 2 2) = nrows transparent_tile /\
  ncols (np_zeros 2 2) = ncols transparent_tile /\
  binary_mask (np_zeros 2 2).
Proof.
  apply (segment_result_is_mask answers_no_foreground default_segmenter
           transparent_tile (np_zeros 2 2)).
  left; reflexivity.
Defined.

(** ** The border layer *)

Lemma fold_max_ge (l : list Z) (x : Z) :
  In x l -> (x <= fold_right Z.max 0%Z l)%Z.
Proof.
  induction l as [|y l IH]; intros H; simpl; [destruct H|].
  destruct H as [-> | H]; [lia | specialize (IH H); lia].
Qed.

Lemma holds_anchor_in (k : kernel) :
  holds_anchor k = true ->
  In (anchor (effective_kernel k)) (kernel_coords (effective_kernel k)).
Proof.
  unfold holds_anchor; intros H.
  apply existsb_exists in H; destruct H as [[r c] [Hin Heq]].
  apply andb_true_iff in Heq; destruct Heq as [Hr Hc].
  apply Nat.eqb_eq in Hr, Hc.
  destruct (anchor (effective_kernel k)) as [ar ac].
  cbn [fst snd] in Hr, Hc; subst; exact Hin.
Qed.

Lemma probe_anchor (d : Z) (img : ndarray Z) (k : kernel) (i j : nat) :
  probe d img k i j (anchor k) = get d img i j.
Proof.
  unfold probe.
  replace (fst (anchor k) <=? i + fst (anchor k)) with true
    by (symmetry; apply Nat.leb_le; lia).
  replace (snd (anchor k) <=? j + snd (anchor k)) with true
    by (symmetry; apply Nat.leb_le; lia).
  simpl; f_equal; lia.
Qed.

(** One dilation with an element that holds its anchor only adds pixels. *)
Lemma dilate1_extensive (k : kernel) (img : ndarray Z) (i j : nat) :
  holds_anchor k = true ->
  i < nrows img -> j < ncols img ->
  (get 0%Z img i j <= get 0%Z (dilate1 k img) i j)%Z.
Proof.
  intros Hk Hi Hj; unfold dilate1.
  rewrite get_tabulate_in by assumption.
  apply fold_max_ge.
  rewrite <- (probe_anchor 0%Z img (effective_kernel k) i j).
  apply in_map, holds_anchor_in; exact Hk.
Qed.

(** C9: the border layer of a binary mask, for an element that holds its
    anchor: it is 0 or 255 at every pixel (the subtraction does not wrap), it
    is set only where the mask is 0, and the dilation it is taken from is
    nowhere below the mask. *)
Theorem border_layer_outside_foreground (S : AggregateSegmenter)
    (internal_binary : ndarray Z) (i j : nat) :
  binary_mask internal_binary ->
  holds_anchor (struct_elem S) = true ->
  i < nrows internal_binary -> j < ncols internal_binary ->
  bit255 (get 0%Z (border_layer S internal_binary) i j) /\
  (get 0%Z (border_layer S internal_binary) i j <> 0%Z ->
   get 0%Z internal_binary i j = 0%Z) /\
  (get 0%Z internal_binary i j
   <= get 0%Z (dilate internal_binary (struct_elem S) 1) i j)%Z /\
  get 0%Z (border_layer S internal_binary) i j
  = (get 0%Z (dilate internal_binary (struct_elem S) 1) i j
     - get 0%Z internal_binary i j)%Z.
Proof.
  intros Hb Hk Hi Hj.
  pose proof (dilate1_extensive (struct_elem S) internal_binary i j Hk Hi Hj)
    as Hle.
  pose proof (dilate1_binary (struct_elem S) internal_binary Hb i j Hi Hj)
    as Hd.
  pose proof (Hb i j Hi Hj) as Hm.
  unfold border_layer, sub_uint8, dilate; simpl Nat.iter.
  simpl nrows; simpl ncols.
  rewrite get_tabulate_in by assumption.
  unfold bit255 in *.
  destruct Hd as [Hd|Hd], Hm as [Hm|Hm]; rewrite Hd, Hm in *;
    unfold to_uint8; simpl; repeat split; auto; try lia; try discriminate;
    intros H; exfalso; apply H; reflexivity.
Qed.

Lemma dot_mask_binary : binary_mask dot_mask.
Proof.
  intros i j Hi Hj; simpl in Hi, Hj.
  do 5 (destruct i as [|i]; [do 5 (destruct j as [|j];
          [vm_compute; auto|]); lia|]); lia.
Qed.

Lemma border_layer_outside_foreground_witness :
  bit255 (get 0%Z (border_layer default_segmenter dot_mask) 2 3) /\
  (get 0%Z (border_layer default_segmenter dot_mask) 2 3 <> 0%Z ->
   get 0%Z dot_mask 2 3 = 0%Z) /\
  (get 0%Z dot_mask 2 3
   <= get 0%Z (dilate dot_mask (struct_elem default_segmenter) 1) 2 3)%Z /\
  get 0%Z (border_layer default_segmenter dot_mask) 2 3
  = (get 0%Z (dilate dot_mask (struct_elem default_segmenter) 1) 2 3
     - get 0%Z dot_mask 2 3)%Z.
Proof.
  apply (border_layer_outside_foreground default_segmenter dot_mask 2 3).
  - exact dot_mask_binary.
  - reflexivity.
  - simpl; lia.
  - simpl; lia.
Defined.

(** With an element that does not hold its anchor the dilation can drop a
    pixel, and the subtraction on uint8 then wraps to 1 on the foreground. *)
Example border_layer_needs_anchor :
  holds_anchor left_elem = false /\
  get 0%Z dot_mask 2 2 = 255%Z /\
  get 0%Z (border_layer
             (init_default keep_colours left_elem) dot_mask) 2 2 = 1%Z.
Proof. vm_compute; auto. Qed.

(** ** The fill pass *)

Lemma paint_app (L : collaborators) (h1 h2 : list contour) (m : ndarray Z) :
  paint L (h1 ++ h2) m = paint L h2 (paint L h1 m).
Proof. unfold paint; apply fold_left_app. Qed.

Lemma clean_contours_paint (L : collaborators) (S : AggregateSegmenter)
    (contours2 : list contour) (idx : list nat) (m : ndarray Z) :
  clean_contours L S contours2 idx m
  = (hulls <- painted_hulls L S contours2 idx ;; Ok (paint L hulls m)).
Proof.
  revert m; induction idx as [|i rest IH]; intros m; simpl; [reflexivity|].
  unfold clean_contour.
  destruct (list_item contours2 i) as [c|e]; simpl; [|reflexivity].
  destruct (circularity_of _ _) as [circ|e]; simpl; [|reflexivity].
  rewrite IH.
  destruct (painted_hulls L S contours2 rest) as [hulls|e]; simpl;
    [|reflexivity].
  rewrite !paint_app.
  destruct (small_area S _), (inclusion S _ _); reflexivity.
Qed.

Lemma paint_shape (L : collaborators) (hulls : list contour) (m : ndarray Z) :
  nrows (paint L hulls m) = nrows m /\ ncols (paint L hulls m) = ncols m.
Proof.
  revert m; induction hulls as [|h hulls IH]; intros m; simpl;
    [split; reflexivity|].
  destruct (IH (drawContours L m h)) as [-> ->]; split; reflexivity.
Qed.

(** What the calls leave: 255 inside a painted hull, the mask elsewhere. *)
Lemma paint_pixels (L : collaborators) (h : contour) (hulls : list contour)
    (m : ndarray Z) :
  paint L (h :: hulls) m
  = tabulate (nrows m) (ncols m)
      (fun i j => if existsb (fun c => filled L c i j) (h :: hulls)
                  then 255%Z else get 0%Z m i j).
Proof.
  revert h m; induction hulls as [|h' hulls IH]; intros h m.
  - simpl; unfold drawContours, set_where.
    apply tabulate_ext; intros i j _ _.
    rewrite orb_false_r; reflexivity.
  - change (paint L (h :: h' :: hulls) m)
      with (paint L (h' :: hulls) (drawContours L m h)).
    rewrite IH.
    change (nrows (drawContours L m h)) with (nrows m).
    change (ncols (drawContours L m h)) with (ncols m).
    apply tabulate_ext; intros i j Hi Hj.
    unfold drawContours; rewrite get_set_where by assumption.
    simpl existsb.
    destruct (filled L h i j), (filled L h' i j),
      (existsb (fun c => filled L c i j) hulls); reflexivity.
Qed.

Lemma paint_idempotent (L : collaborators) (hulls : list contour)
    (m : ndarray Z) :
  paint L hulls (paint L hulls m) = paint L hulls m.
Proof.
  destruct hulls as [|h hulls]; [reflexivity|].
  rewrite (paint_pixels L h hulls (paint L (h :: hulls) m)).
  destruct (paint_shape L (h :: hulls) m) as [-> ->].
  etransitivity; [|symmetry; apply (paint_pixels L h hulls m)].
  apply tabulate_ext; intros i j Hi Hj.
  rewrite (paint_pixels L h hulls m).
  rewrite get_tabulate_in by assumption.
  destruct (existsb _ _); reflexivity.
Qed.

(** C6: running the loop over the hole contours again on its own result
    changes nothing (and raises what the first run raised); the two
    conditions are tested one after the other, neither excluding the other:
    with the default arguments a hull of area 100 and circularity 0.97
    passes both, area 100 and circularity 0.5 only the first, area 1000 and
    circularity 0.97 only the second. *)
Theorem fill_pass_idempotent :
  (forall (L : collaborators) (S : AggregateSegmenter)
          (contours2 : list contour) (idx : list nat) (m : ndarray Z),
      (b <- clean_contours L S contours2 idx m ;;
       clean_contours L S contours2 idx b)
      = clean_contours L S contours2 idx m) /\
  (small_area default_segmenter 100%float = true /\
   inclusion default_segmenter 100%float 0x1.f0a3d70a3d70ap-1%float = true) /\
  (small_area default_segmenter 100%float = true /\
   inclusion default_segmenter 100%float 0.5%float = false) /\
  (small_area default_segmenter 1000%float = false /\
   inclusion default_segmenter 1000%float 0x1.f0a3d70a3d70ap-1%float = true).
Proof.
  split; [|repeat split; reflexivity].
  intros L S contours2 idx m.
  rewrite clean_contours_paint.
  destruct (painted_hulls L S contours2 idx) as [hulls|e] eqn:Hp; simpl;
    [|reflexivity].
  rewrite clean_contours_paint, Hp; simpl.
  rewrite paint_idempotent; reflexivity.
Qed.

(** ** The circularity of a hull without perimeter *)

Lemma contour_idx_lt (hierarchy0 : list hierarchy_row) (i : nat) :
  In i (contour_idx hierarchy0) -> i < length hierarchy0.
Proof.
  unfold contour_idx; intros H.
  apply in_map_iff in H; destruct H as [[k h] [Hk Hin]]; simpl in Hk; subst k.
  apply filter_In in Hin; destruct Hin as [Hin _].
  apply in_combine_l, in_seq in Hin; lia.
Qed.

Lemma circularity_of_zero_perimeter (convex_area perimeter : float) :
  PrimFloat.eqb (perimeter * perimeter) 0 = true ->
  circularity_of convex_area perimeter = Raise ZeroDivisionError.
Proof. intros H; unfold circularity_of, py_float_div; rewrite H; reflexivity. Qed.

Lemma circularity_of_outcomes (convex_area perimeter : float) :
  (exists c, circularity_of convex_area perimeter = Ok c) \/
  circularity_of convex_area perimeter = Raise ZeroDivisionError.
Proof.
  unfold circularity_of, py_float_div.
  destruct (PrimFloat.eqb _ _); [right | left; eexists]; reflexivity.
Qed.

(** The loop stops on ZeroDivisionError as soon as one of its contours has a
    hull without perimeter; nothing else can stop it when every index names a
    contour. *)
Lemma clean_contours_zero_perimeter (L : collaborators)
    (S : AggregateSegmenter) (contours2 : list contour) (idx : list nat)
    (m : ndarray Z) (i : nat) (c : contour) :
  (forall k, In k idx -> k < length contours2) ->
  In i idx ->
  nth_error contours2 i = Some c ->
  PrimFloat.eqb (arcLength L (convexHull L c) * arcLength L (convexHull L c)) 0
  = true ->
  clean_contours L S contours2 idx m = Raise ZeroDivisionError.
Proof.
  intros Hidx Hin Hc Hzero; revert m.
  induction idx as [|k rest IH]; intros m; [destruct Hin|].
  simpl; unfold clean_contour.
  destruct (nth_error contours2 k) as [ck|] eqn:Hk.
  2:{ apply nth_error_None in Hk.
      specialize (Hidx k (or_introl eq_refl)); lia. }
  unfold list_item; rewrite Hk; simpl.
  destruct (circularity_of_outcomes (contourArea L (convexHull L ck))
              (arcLength L (convexHull L ck))) as [[circ Hcirc]|Hraise].
  - rewrite Hcirc; simpl.
    destruct Hin as [->|Hin].
    + rewrite Hc in Hk; injection Hk as <-.
      rewrite circularity_of_zero_perimeter in Hcirc by exact Hzero.
      discriminate.
    + apply IH; [|exact Hin].
      intros k' Hk'; apply Hidx; right; exact Hk'.
  - rewrite Hraise; reflexivity.
Qed.

(** Neither copy tests the perimeter before line 163 divides by its square:
    were the tracing to report a hole contour whose hull has no perimeter, the
    division would raise ZeroDivisionError and the exception would leave
    [segment] in both copies.  Whether a raster can give such a contour is
    decided inside cv2: the contour of a hole runs over the foreground pixels
    around it, at least four of them and not on one line. *)
Lemma zero_perimeter_hole_raises (L : collaborators)
    (S : AggregateSegmenter) (np_image : ndarray rgba)
    (contours2 : list contour) (hierarchy0 : list hierarchy_row)
    (i : nat) (c : contour) :
  findContours L (initial_mask L S np_image) = (contours2, Some hierarchy0) ->
  length hierarchy0 = length contours2 ->
  In i (contour_idx hierarchy0) ->
  nth_error contours2 i = Some c ->
  PrimFloat.eqb (arcLength L (convexHull L c) * arcLength L (convexHull L c)) 0
  = true ->
  Segmenters.segment L S np_image = Raise ZeroDivisionError /\
  AggregateProcessing.segment L S np_image = Raise ZeroDivisionError.
Proof.
  intros Hf Hlen Hin Hc Hzero.
  assert (Hs : Segmenters.segment L S np_image = Raise ZeroDivisionError).
  { unfold Segmenters.segment; fold (initial_mask L S np_image).
    rewrite Hf.
    rewrite (clean_contours_zero_perimeter L S contours2
               (contour_idx hierarchy0) (initial_mask L S np_image) i c);
      [reflexivity| |exact Hin|exact Hc|exact Hzero].
    intros k Hk; apply contour_idx_lt in Hk; lia. }
  split; [exact Hs|].
  rewrite (segment_past_subscript L S np_image hierarchy0);
    [exact Hs | rewrite Hf; reflexivity].
Qed.

Lemma zero_perimeter_hole_raises_witness :
  Segmenters.segment answers_point_hole default_segmenter opaque_tile
  = Raise ZeroDivisionError /\
  AggregateProcessing.segment answers_point_hole default_segmenter opaque_tile
  = Raise ZeroDivisionError.
Proof.
  apply (zero_perimeter_hole_raises answers_point_hole default_segmenter
           opaque_tile
           [[(1, 1); (1, 3); (3, 3); (3, 1)]; [(2, 2)]]%Z
           [(-1, -1, 1, -1); (-1, -1, -1, 0)]%Z
           1 [(2, 2)]%Z).
  - reflexivity.
  - reflexivity.
  - simpl; left; reflexivity.
  - reflexivity.
  - reflexivity.
Defined.

(** With a perimeter whose square is not zero the body of the loop raises
    nothing and paints the hull once per condition that holds. *)
Lemma clean_contour_nonzero_perimeter (L : collaborators)
    (S : AggregateSegmenter) (contours2 : list contour) (m : ndarray Z)
    (i : nat) (c : contour) :
  nth_error contours2 i = Some c ->
  PrimFloat.eqb (arcLength L (convexHull L c) * arcLength L (convexHull L c)) 0
  = false ->
  clean_contour L S contours2 m i
  = Ok (paint L
          ((if small_area S (contourArea L (convexHull L c))
            then [convexHull L c] else []) ++
           (if inclusion S (contourArea L (convexHull L c))
                 (4 * np_pi * contourArea L (convexHull L c)
                  / (arcLength L (convexHull L c) * arcLength L (convexHull L c)))
            then [convexHull L c] else []))
          m).
Proof.
  intros Hc Hnz; unfold clean_contour, list_item; rewrite Hc; simpl.
  unfold circularity_of, py_float_div; rewrite Hnz; simpl.
  destruct (small_area S _), (inclusion S _ _); reflexivity.
Qed.

(** On answers in which the tracing reports a hole contour made of one point:
    its hull has perimeter 0.0, its index is one of the hole indices, and both
    copies of [segment] raise ZeroDivisionError. *)
Example point_hole_division_fault :
  contour_idx (match snd (findContours answers_point_hole
                            (initial_mask answers_point_hole default_segmenter
                               opaque_tile)) with
               | Some h => h
               | None => []
               end) = [1] /\
  arcLength answers_point_hole (convexHull answers_point_hole [(2, 2)]%Z)
  = 0%float /\
  small_area default_segmenter
    (contourArea answers_point_hole (convexHull answers_point_hole [(2, 2)]%Z))
  = true /\
  Segmenters.segment answers_point_hole default_segmenter opaque_tile
  = Raise ZeroDivisionError /\
  AggregateProcessing.segment answers_point_hole default_segmenter opaque_tile
  = Raise ZeroDivisionError.
Proof. repeat split; reflexivity. Qed.

(** ** Labelling *)

Lemma component_seed (input : ndarray Z) (structure : kernel) (i j : nat) :
  i < nrows input -> j < ncols input ->
  get 0%Z input i j <> 0%Z ->
  get false (component input structure i j) i j = true.
Proof.
  intros Hi Hj Hf; unfold component, grown.
  induction (nrows input * ncols input) as [|n IH]; simpl.
  - rewrite get_tabulate_in by assumption.
    rewrite !Nat.eqb_refl; reflexivity.
  - unfold grow_step at 1; rewrite get_tabulate_in by assumption.
    rewrite IH. apply Z.eqb_neq in Hf; rewrite Hf; reflexivity.
Qed.

Lemma component_feature (input : ndarray Z) (structure : kernel)
    (i0 j0 i j : nat) :
  i < nrows input -> j < ncols input ->
  get false (component input structure i0 j0) i j = true ->
  get 0%Z input i j <> 0%Z.
Proof.
  intros Hi Hj; unfold component, grown.
  destruct (nrows input * ncols input) as [|n] eqn:Hn; [nia|].
  simpl; unfold grow_step at 1; rewrite get_tabulate_in by assumption.
  intros H; apply andb_true_iff in H; destruct H as [H _].
  apply negb_true_iff, Z.eqb_neq in H; exact H.
Qed.

Lemma label_visit_keeps (input : ndarray Z) (structure : kernel)
    (st : ndarray Z * Z) (p : nat * nat) (i j : nat) :
  i < nrows input -> j < ncols input ->
  get 0%Z (fst st) i j <> 0%Z ->
  get 0%Z (fst (label_visit input structure st p)) i j = get 0%Z (fst st) i j.
Proof.
  intros Hi Hj Hl; unfold label_visit.
  destruct (_ && _); [|reflexivity].
  simpl; rewrite get_tabulate_in by assumption.
  apply Z.eqb_neq in Hl; rewrite Hl, andb_false_r; reflexivity.
Qed.

Lemma label_visit_new (input : ndarray Z) (structure : kernel)
    (st : ndarray Z * Z) (p : nat * nat) :
  fst p < nrows input -> snd p < ncols input ->
  get 0%Z input (fst p) (snd p) <> 0%Z ->
  get 0%Z (fst st) (fst p) (snd p) = 0%Z ->
  get 0%Z (fst (label_visit input structure st p)) (fst p) (snd p)
  = (snd st + 1)%Z /\
  snd (label_visit input structure st p) = (snd st + 1)%Z.
Proof.
  intros Hi Hj Hf Hl; unfold label_visit.
  rewrite Hl; apply Z.eqb_neq in Hf; rewrite Hf; simpl.
  rewrite get_tabulate_in by assumption.
  rewrite component_seed by (try assumption; apply Z.eqb_neq; exact Hf).
  rewrite Hl; split; reflexivity.
Qed.

Lemma label_visit_well_labelled (input : ndarray Z) (structure : kernel)
    (st : ndarray Z * Z) (p : nat * nat) :
  fst p < nrows input -> snd p < ncols input ->
  well_labelled input st ->
  well_labelled input (label_visit input structure st p).
Proof.
  intros Hi Hj Hst; pose proof Hst as (Hr & Hc & Hn & Hb & Hs & Hu).
  destruct (negb (Z.eqb (get 0%Z input (fst p) (snd p)) 0) &&
            Z.eqb (get 0%Z (fst st) (fst p) (snd p)) 0) eqn:Hcond.
  2:{ unfold label_visit; rewrite Hcond; exact Hst. }
  apply andb_true_iff in Hcond; destruct Hcond as [Hf Hl].
  apply negb_true_iff, Z.eqb_neq in Hf; apply Z.eqb_eq in Hl.
  destruct (label_visit_new input structure st p Hi Hj Hf Hl) as [Hp Hn'].
  assert (Hpix : forall i j, i < nrows input -> j < ncols input ->
            get 0%Z (fst (label_visit input structure st p)) i j
            = if get false (component input structure (fst p) (snd p)) i j &&
                 Z.eqb (get 0%Z (fst st) i j) 0
              then (snd st + 1)%Z else get 0%Z (fst st) i j).
  { intros i j Hi' Hj'; unfold label_visit.
    rewrite Hl; apply Z.eqb_neq in Hf; rewrite Hf; simpl.
    rewrite get_tabulate_in by assumption; reflexivity. }
  assert (Hshape : nrows (fst (label_visit input structure st p)) = nrows input
                   /\ ncols (fst (label_visit input structure st p))
                      = ncols input).
  { unfold label_visit; destruct (_ && _); split; auto. }
  destruct Hshape as [Hr' Hc'].
  split; [exact Hr'|]. split; [exact Hc'|].
  rewrite Hn'. split; [lia|]. split; [|split].
  - intros i j Hi' Hj'; rewrite Hpix by assumption.
    specialize (Hb i j Hi' Hj'); destruct (_ && _); lia.
  - intros i j Hi' Hj'; rewrite Hpix by assumption.
    destruct (get false (component input structure (fst p) (snd p)) i j)
      eqn:Hcomp; simpl.
    + intros _; apply (component_feature input structure (fst p) (snd p));
        assumption.
    + apply Hs; assumption.
  - intros l Hl'.
    destruct (Z.eq_dec l (snd st + 1)) as [->|Hne].
    + exists (fst p), (snd p); repeat split; assumption.
    + destruct (Hu l ltac:(lia)) as (i & j & Hi' & Hj' & Hij).
      exists i, j; repeat split; try assumption.
      rewrite label_visit_keeps by (try assumption; lia); exact Hij.
Qed.

Lemma label_fold (input : ndarray Z) (structure : kernel)
    (l : list (nat * nat)) (st : ndarray Z * Z) :
  (forall p, In p l -> fst p < nrows input /\ snd p < ncols input) ->
  well_labelled input st ->
  well_labelled input (fold_left (label_visit input structure) l st) /\
  (forall i j, i < nrows input -> j < ncols input ->
     get 0%Z (fst st) i j <> 0%Z ->
     get 0%Z (fst (fold_left (label_visit input structure) l st)) i j
     = get 0%Z (fst st) i j) /\
  (forall p, In p l -> get 0%Z input (fst p) (snd p) <> 0%Z ->
     get 0%Z (fst (fold_left (label_visit input structure) l st))
       (fst p) (snd p) <> 0%Z).
Proof.
  revert st; induction l as [|q l IH]; intros st Hl Hst; simpl.
  - split; [exact Hst|]. split; [reflexivity|]. intros p [].
  - destruct (Hl q (or_introl eq_refl)) as [Hqi Hqj].
    pose proof (label_visit_well_labelled input structure st q Hqi Hqj Hst)
      as Hst'.
    destruct (IH (label_visit input structure st q)
                (fun p Hp => Hl p (or_intror Hp)) Hst')
      as (Hw & Hkeep & Hdone).
    split; [exact Hw|]. split.
    + intros i j Hi Hj Hne.
      rewrite Hkeep by (try assumption;
        rewrite label_visit_keeps by assumption; exact Hne).
      apply label_visit_keeps; assumption.
    + intros p [<-|Hp] Hf; [|apply Hdone; assumption].
      assert (Hq : get 0%Z (fst (label_visit input structure st q))
                     (fst q) (snd q) <> 0%Z).
      { destruct (Z.eq_dec (get 0%Z (fst st) (fst q) (snd q)) 0) as [Hz|Hnz].
        - destruct (label_visit_new input structure st q Hqi Hqj Hf Hz)
            as [-> _].
          destruct Hst as (_ & _ & Hn & _); lia.
        - rewrite label_visit_keeps by assumption; exact Hnz. }
      rewrite Hkeep by assumption; exact Hq.
Qed.

Lemma well_labelled_start (input : ndarray Z) :
  well_labelled input (np_zeros (nrows input) (ncols input), 0%Z).
Proof.
  unfold well_labelled; simpl fst; simpl snd.
  split; [reflexivity|]. split; [reflexivity|]. split; [lia|].
  split; [|split].
  - intros i j Hi Hj; rewrite all_zero_np_zeros by assumption; lia.
  - intros i j Hi Hj H; exfalso; apply H; apply all_zero_np_zeros; assumption.
  - intros l Hl; lia.
Qed.

(** [label] numbers the features 1..N on a background of 0. *)
Lemma label_spec (input : ndarray Z) (structure : kernel) :
  well_labelled input (label input structure) /\
  (forall i j, i < nrows input -> j < ncols input ->
     (get 0%Z (fst (label input structure)) i j = 0%Z
      <-> get 0%Z input i j = 0%Z)).
Proof.
  destruct (label_fold input structure
              (positions (nrows input) (ncols input))
              (np_zeros (nrows input) (ncols input), 0%Z))
    as (Hw & _ & Hdone).
  - intros p Hp; apply in_positions; exact Hp.
  - apply well_labelled_start.
  - split; [exact Hw|].
    intros i j Hi Hj; split; intros H.
    + destruct (Z.eq_dec (get 0%Z input i j) 0) as [Hz|Hnz]; [exact Hz|].
      exfalso; apply (Hdone (i, j)); [apply in_positions; simpl; lia | exact Hnz |].
      exact H.
    + destruct Hw as (_ & _ & _ & _ & Hs & _).
      destruct (Z.eq_dec (get 0%Z (fst (label input structure)) i j) 0)
        as [Hz|Hnz]; [exact Hz|].
      exfalso; apply (Hs i j Hi Hj Hnz); exact H.
Qed.

(** ** The colour code of the markers *)

Lemma marker_color_above (nb_labels : Z) :
  (0 <= nb_labels < 2 ^ 31 - 1)%Z ->
  to_int32 (marker_color_of nb_labels) = marker_color_of nb_labels /\
  (nb_labels < marker_color_of nb_labels)%Z /\
  (255 < marker_color_of nb_labels)%Z.
Proof.
  intros H; unfold marker_color_of, to_int32.
  destruct (nb_labels <? 255)%Z eqn:Hlt.
  - apply Z.ltb_lt in Hlt; split; [reflexivity | lia].
  - apply Z.ltb_ge in Hlt; split; [|lia].
    rewrite Z.mod_small by lia; lia.
Qed.

Lemma get_encode_markers (markers borders : ndarray Z) (nb_labels : Z)
    (i j : nat) :
  i < nrows markers -> j < ncols markers ->
  get 0%Z (encode_markers markers nb_labels borders) i j
  = if Z.eqb (get 0%Z borders i j) 255 then 255%Z
    else if Z.eqb (get 0%Z markers i j) 255
         then to_int32 (marker_color_of nb_labels)
         else get 0%Z markers i j.
Proof.
  intros Hi Hj; unfold encode_markers.
  rewrite get_set_where by assumption.
  rewrite get_set_where by assumption.
  reflexivity.
Qed.

Lemma label_markers_range (S : AggregateSegmenter) (mask markers : ndarray Z)
    (nb_labels : Z) (i j : nat) :
  label_markers S mask = (markers, nb_labels) ->
  i < nrows markers -> j < ncols markers ->
  (0 <= get 0%Z markers i j <= nb_labels)%Z.
Proof.
  intros Hl Hi Hj; unfold label_markers in Hl.
  destruct (label_spec (astype_int32 (dilate mask (struct_elem S) 2)) ones3x3)
    as [(Hr & Hc & _ & Hb & _) _].
  rewrite Hl in Hr, Hc, Hb; simpl fst in *; simpl snd in *.
  apply Hb; [rewrite <- Hr | rewrite <- Hc]; assumption.
Qed.

(** C2: after the colour code of lines 212-215 a pixel holds 255 exactly when
    it lies in the border layer; outside the border layer a seed numbered 255
    holds [nb_labels + 1], which is above every label, every other pixel
    keeps its label, and two pixels hold one value only if they had one
    label; with 300 seeds the seed numbered 255 becomes 301. *)
Theorem border_color_is_no_label (S : AggregateSegmenter)
    (mask markers borders : ndarray Z) (nb_labels : Z) (i j : nat) :
  label_markers S mask = (markers, nb_labels) ->
  (nb_labels < 2 ^ 31 - 1)%Z ->
  i < nrows markers -> j < ncols markers ->
  (get 0%Z (encode_markers markers nb_labels borders) i j = 255%Z
   <-> get 0%Z borders i j = 255%Z) /\
  (get 0%Z borders i j <> 255%Z -> get 0%Z markers i j = 255%Z ->
   get 0%Z (encode_markers markers nb_labels borders) i j = (nb_labels + 1)%Z
   /\ (255 <= nb_labels)%Z) /\
  (get 0%Z borders i j <> 255%Z -> get 0%Z markers i j <> 255%Z ->
   get 0%Z (encode_markers markers nb_labels borders) i j
   = get 0%Z markers i j) /\
  (forall i' j', i' < nrows markers -> j' < ncols markers ->
     get 0%Z borders i j <> 255%Z -> get 0%Z borders i' j' <> 255%Z ->
     get 0%Z (encode_markers markers nb_labels borders) i j
     = get 0%Z (encode_markers markers nb_labels borders) i' j' ->
     get 0%Z markers i j = get 0%Z markers i' j') /\
  marker_color_of 300 = 301%Z.
Proof.
  intros Hl Hn Hi Hj.
  pose proof (label_markers_range S mask markers nb_labels i j Hl Hi Hj) as Hr.
  destruct (marker_color_above nb_labels ltac:(lia)) as (Hmc & Habove & H255).
  rewrite get_encode_markers by assumption.
  split; [|split; [|split; [|split]]].
  - destruct (Z.eqb (get 0%Z borders i j) 255) eqn:Hb.
    + apply Z.eqb_eq in Hb; tauto.
    + apply Z.eqb_neq in Hb.
      destruct (Z.eqb (get 0%Z markers i j) 255) eqn:Hm.
      * rewrite Hmc; split; intros; [lia | contradiction].
      * apply Z.eqb_neq in Hm; tauto.
  - intros Hb Hm; apply Z.eqb_neq in Hb; rewrite Hb.
    rewrite Hm, Hmc; simpl.
    unfold marker_color_of.
    destruct (nb_labels <? 255)%Z eqn:Hlt; [apply Z.ltb_lt in Hlt; lia|].
    apply Z.ltb_ge in Hlt; split; [reflexivity | exact Hlt].
  - intros Hb Hm; apply Z.eqb_neq in Hb, Hm; rewrite Hb, Hm; reflexivity.
  - intros i' j' Hi' Hj' Hb Hb'.
    pose proof (label_markers_range S mask markers nb_labels i' j' Hl Hi' Hj')
      as Hr'.
    rewrite (get_encode_markers markers borders nb_labels i' j') by assumption.
    apply Z.eqb_neq in Hb, Hb'; rewrite Hb, Hb', Hmc.
    destruct (Z.eqb_spec (get 0%Z markers i j) 255) as [Hm|Hm];
      destruct (Z.eqb_spec (get 0%Z markers i' j') 255) as [Hm'|Hm']; lia.
  - reflexivity.
Qed.

Lemma border_color_is_no_label_witness :
  (get 0%Z (encode_markers (tabulate 5 5 (fun _ _ => 1%Z)) 1 (border_layer default_segmenter dot_mask))
     2 2 = 255%Z
   <-> get 0%Z (border_layer default_segmenter dot_mask) 2 2 = 255%Z) /\
  (get 0%Z (border_layer default_segmenter dot_mask) 2 2 <> 255%Z ->
   get 0%Z (tabulate 5 5 (fun _ _ => 1%Z)) 2 2 = 255%Z ->
   get 0%Z (encode_markers (tabulate 5 5 (fun _ _ => 1%Z)) 1 (border_layer default_segmenter dot_mask))
     2 2 = (1 + 1)%Z
   /\ (255 <= 1)%Z) /\
  (get 0%Z (border_layer default_segmenter dot_mask) 2 2 <> 255%Z ->
   get 0%Z (tabulate 5 5 (fun _ _ => 1%Z)) 2 2 <> 255%Z ->
   get 0%Z (encode_markers (tabulate 5 5 (fun _ _ => 1%Z)) 1 (border_layer default_segmenter dot_mask))
     2 2
   = get 0%Z (tabulate 5 5 (fun _ _ => 1%Z)) 2 2) /\
  (forall i' j', i' < 5 -> j' < 5 ->
     get 0%Z (border_layer default_segmenter dot_mask) 2 2 <> 255%Z ->
     get 0%Z (border_layer default_segmenter dot_mask) i' j' <> 255%Z ->
     get 0%Z (encode_markers (tabulate 5 5 (fun _ _ => 1%Z)) 1 (border_layer default_segmenter dot_mask))
       2 2
     = get 0%Z (encode_markers (tabulate 5 5 (fun _ _ => 1%Z)) 1
                  (border_layer default_segmenter dot_mask)) i' j' ->
     get 0%Z (tabulate 5 5 (fun _ _ => 1%Z)) 2 2
     = get 0%Z (tabulate 5 5 (fun _ _ => 1%Z)) i' j') /\
  marker_color_of 300 = 301%Z.
Proof.
  apply (border_color_is_no_label default_segmenter dot_mask
           (tabulate 5 5 (fun _ _ => 1%Z))
           (border_layer default_segmenter dot_mask) 1 2 2).
  - vm_compute; reflexivity.
  - lia.
  - simpl; lia.
  - simpl; lia.
Defined.

(** With 300 seeds: the seed numbered 255 is coded 301, the border pixel 255,
    the seed numbered 7 stays 7. *)
Example encode_markers_300 :
  encode_markers markers_of_300 300 borders_of_300 = matrix [[301; 255; 7]]%Z.
Proof. vm_compute; reflexivity. Qed.

(** ** The seeds *)

Lemma get_marker_mask (dt : ndarray float) (internal_binary : ndarray Z)
    (i j : nat) :
  i < nrows dt -> j < ncols dt ->
  get 0%Z (marker_mask dt internal_binary) i j
  = if Z.eqb (get 0%Z internal_binary i j) 0 then 0%Z
    else if local_max_ind dt i j then 255%Z else 0%Z.
Proof.
  intros Hi Hj; unfold marker_mask.
  rewrite get_set_where by assumption.
  rewrite get_set_where by assumption.
  unfold astype_uint8; simpl nrows; simpl ncols.
  rewrite get_tabulate_in by assumption.
  rewrite all_zero_np_zeros by assumption.
  reflexivity.
Qed.

Lemma marker_mask_binary (dt : ndarray float) (internal_binary : ndarray Z) :
  binary_mask (marker_mask dt internal_binary).
Proof.
  intros i j Hi Hj; simpl in Hi, Hj.
  rewrite get_marker_mask by assumption.
  destruct (Z.eqb _ _); [left; reflexivity|].
  destruct (local_max_ind dt i j); [right | left]; reflexivity.
Qed.

Lemma get_astype_int32_binary (a : ndarray Z) (i j : nat) :
  binary_mask a -> i < nrows a -> j < ncols a ->
  get 0%Z (astype_int32 a) i j = get 0%Z a i j.
Proof.
  intros Hb Hi Hj; unfold astype_int32.
  rewrite get_tabulate_in by assumption.
  destruct (Hb i j Hi Hj) as [-> | ->]; reflexivity.
Qed.

(** ** The labelling follows 8-connectivity *)

Lemma filter_length_le (A : Type) (f g : A -> bool) (l : list A) :
  (forall x, In x l -> f x = true -> g x = true) ->
  length (filter f l) <= length (filter g l).
Proof.
  induction l as [|x l IH]; intros H; simpl; [lia|].
  specialize (IH (fun y Hy => H y (or_intror Hy))).
  destruct (f x) eqn:Hf.
  - rewrite (H x (or_introl eq_refl) Hf); simpl; lia.
  - destruct (g x); simpl; lia.
Qed.

Lemma filter_length_lt (A : Type) (f g : A -> bool) (l : list A) (x : A) :
  (forall y, In y l -> f y = true -> g y = true) ->
  In x l -> f x = false -> g x = true ->
  length (filter f l) < length (filter g l).
Proof.
  induction l as [|y l IH]; intros H Hin Hf Hg; [destruct Hin|]; simpl.
  pose proof (filter_length_le A f g l (fun z Hz => H z (or_intror Hz))) as Hle.
  destruct Hin as [->|Hin].
  - rewrite Hf, Hg; simpl; lia.
  - specialize (IH (fun z Hz => H z (or_intror Hz)) Hin Hf Hg).
    destruct (f y) eqn:Hfy.
    + rewrite (H y (or_introl eq_refl) Hfy); simpl; lia.
    + destruct (g y); simpl; lia.
Qed.

Lemma filter_length_bound (A : Type) (f : A -> bool) (l : list A) :
  length (filter f l) <= length l.
Proof. induction l as [|x l IH]; simpl; [lia | destruct (f x); simpl; lia]. Qed.

Lemma length_positions (h w : nat) : length (positions h w) = h * w.
Proof. unfold positions; rewrite length_prod, !length_seq; reflexivity. Qed.

(** The arrays the growth passes through. *)
Lemma grow_iter_tabulate (input : ndarray Z) (structure : kernel)
    (i0 j0 k : nat) :
  exists f,
    Nat.iter k (grow_step input structure)
      (tabulate (nrows input) (ncols input)
         (fun i j => (i =? i0) && (j =? j0)))
    = tabulate (nrows input) (ncols input) f.
Proof.
  destruct k as [|k]; simpl; eexists; [reflexivity|].
  unfold grow_step at 1; reflexivity.
Qed.

Lemma tabulate_eq_dec_bool (h w : nat) (f g : nat -> nat -> bool) :
  tabulate h w f = tabulate h w g \/
  exists i j, i < h /\ j < w /\ f i j <> g i j.
Proof.
  destruct (forallb (fun p => Bool.eqb (f (fst p) (snd p)) (g (fst p) (snd p)))
              (positions h w)) eqn:Hall.
  - left; apply tabulate_ext; intros i j Hi Hj.
    rewrite forallb_forall in Hall.
    specialize (Hall (i, j)); simpl in Hall.
    apply Bool.eqb_prop, Hall, in_positions; simpl; lia.
  - right.
    assert (Hex : existsb (fun p => negb (Bool.eqb (f (fst p) (snd p))
                                            (g (fst p) (snd p))))
                    (positions h w) = true).
    { clear -Hall; induction (positions h w) as [|p l IH]; simpl in *;
        [discriminate|].
      destruct (Bool.eqb (f (fst p) (snd p)) (g (fst p) (snd p))); simpl in *;
        [apply IH; exact Hall | reflexivity]. }
    apply existsb_exists in Hex; destruct Hex as [[i j] [Hin Hne]].
    apply in_positions in Hin; simpl in *.
    exists i, j; split; [lia|]. split; [lia|].
    intros Heq; rewrite Heq, Bool.eqb_reflx in Hne; discriminate.
Qed.

Section Growth.

Variables (input : ndarray Z) (structure : kernel) (i0 j0 : nat).
Hypothesis seed_row : i0 < nrows input.
Hypothesis seed_col : j0 < ncols input.
Hypothesis seed_feature : get 0%Z input i0 j0 <> 0%Z.

Lemma component_grown :
  component input structure i0 j0
  = grown input structure i0 j0 (nrows input * ncols input).
Proof. reflexivity. Qed.

Lemma grown_shape (k : nat) :
  nrows (grown input structure i0 j0 k) = nrows input /\
  ncols (grown input structure i0 j0 k) = ncols input.
Proof. destruct k; split; reflexivity. Qed.

Lemma get_grown_S (k i j : nat) :
  i < nrows input -> j < ncols input ->
  get false (grown input structure i0 j0 (S k)) i j
  = negb (Z.eqb (get 0%Z input i j) 0) &&
    (get false (grown input structure i0 j0 k) i j ||
     existsb (fun p => (1 <=? i + fst p) && (1 <=? j + snd p) &&
                       get false (grown input structure i0 j0 k)
                         (i + fst p - 1) (j + snd p - 1))
             (set_cells structure)).
Proof.
  intros Hi Hj.
  change (grown input structure i0 j0 (S k))
    with (grow_step input structure (grown input structure i0 j0 k)).
  unfold grow_step; rewrite get_tabulate_in by assumption; reflexivity.
Qed.

Lemma grown_feature (k i j : nat) :
  i < nrows input -> j < ncols input ->
  get false (grown input structure i0 j0 k) i j = true ->
  get 0%Z input i j <> 0%Z.
Proof.
  intros Hi Hj; destruct k as [|k].
  - unfold grown; simpl; rewrite get_tabulate_in by assumption.
    intros H; apply andb_true_iff in H; destruct H as [H1 H2].
    apply Nat.eqb_eq in H1, H2; subst; exact seed_feature.
  - rewrite get_grown_S by assumption.
    intros H; apply andb_true_iff in H; destruct H as [H _].
    apply negb_true_iff, Z.eqb_neq in H; exact H.
Qed.

Lemma grown_mono (k i j : nat) :
  i < nrows input -> j < ncols input ->
  get false (grown input structure i0 j0 k) i j = true ->
  get false (grown input structure i0 j0 (S k)) i j = true.
Proof.
  intros Hi Hj H; rewrite get_grown_S by assumption.
  rewrite H; simpl.
  pose proof (grown_feature k i j Hi Hj H) as Hf.
  apply Z.eqb_neq in Hf; rewrite Hf; reflexivity.
Qed.

Lemma grown_stable (k : nat) :
  grown input structure i0 j0 (S k) = grown input structure i0 j0 k ->
  forall m, grown input structure i0 j0 (m + k) = grown input structure i0 j0 k.
Proof.
  intros H m; induction m as [|m IH]; [reflexivity|].
  change (grown input structure i0 j0 (S m + k))
    with (grow_step input structure (grown input structure i0 j0 (m + k))).
  rewrite IH; exact H.
Qed.

Lemma count_true_grown_0 : 1 <= count_true (grown input structure i0 j0 0).
Proof.
  unfold count_true.
  destruct (grown_shape 0) as [-> ->].
  assert (Hin : In (i0, j0)
                  (filter (fun p => get false (grown input structure i0 j0 0)
                                      (fst p) (snd p))
                     (positions (nrows input) (ncols input)))).
  { apply filter_In; split; [apply in_positions; simpl; lia|].
    unfold grown; simpl; rewrite get_tabulate_in by assumption.
    rewrite !Nat.eqb_refl; reflexivity. }
  destruct (filter _ _); [destruct Hin | simpl; lia].
Qed.

Lemma grown_progress (k : nat) :
  grown input structure i0 j0 (S k) = grown input structure i0 j0 k \/
  count_true (grown input structure i0 j0 k)
  < count_true (grown input structure i0 j0 (S k)).
Proof.
  destruct (grow_iter_tabulate input structure i0 j0 k) as [f Hf].
  destruct (grow_iter_tabulate input structure i0 j0 (S k)) as [g Hg].
  fold (grown input structure i0 j0 k) in Hf.
  fold (grown input structure i0 j0 (S k)) in Hg.
  destruct (tabulate_eq_dec_bool (nrows input) (ncols input) g f)
    as [Heq|(i & j & Hi & Hj & Hne)].
  - left; rewrite Hf, Hg; exact Heq.
  - right; unfold count_true.
    destruct (grown_shape k) as [-> ->].
    destruct (grown_shape (S k)) as [-> ->].
    assert (Hfi : get false (grown input structure i0 j0 k) i j = f i j)
      by (rewrite Hf; apply get_tabulate_in; assumption).
    assert (Hgi : get false (grown input structure i0 j0 (S k)) i j = g i j)
      by (rewrite Hg; apply get_tabulate_in; assumption).
    apply (filter_length_lt _ _ _ _ (i, j)).
    + intros p Hp; apply in_positions in Hp; destruct Hp.
      apply grown_mono; assumption.
    + apply in_positions; simpl; lia.
    + cbn [fst snd].
      destruct (get false (grown input structure i0 j0 k) i j) eqn:Hk;
        [|reflexivity].
      exfalso; apply Hne.
      rewrite <- Hfi, <- Hgi, (grown_mono k i j Hi Hj Hk); reflexivity.
    + cbn [fst snd].
      destruct (get false (grown input structure i0 j0 (S k)) i j)
        eqn:Hk'; [reflexivity|].
      exfalso.
      destruct (get false (grown input structure i0 j0 k) i j) eqn:Hk.
      * rewrite (grown_mono k i j Hi Hj Hk) in Hk'; discriminate.
      * apply Hne; rewrite <- Hfi, <- Hgi; reflexivity.
Qed.

Lemma grown_count (k : nat) :
  (exists j, j < k /\
     grown input structure i0 j0 (S j) = grown input structure i0 j0 j) \/
  k + 1 <= count_true (grown input structure i0 j0 k).
Proof.
  induction k as [|k IH].
  - right; apply count_true_grown_0.
  - destruct IH as [(j & Hj & Hs)|Hc].
    + left; exists j; split; [lia | exact Hs].
    + destruct (grown_progress k) as [Hs|Hlt].
      * left; exists k; split; [lia | exact Hs].
      * right; lia.
Qed.

(** After as many steps as the input has pixels nothing is left to reach. *)
Lemma component_closed :
  grow_step input structure (component input structure i0 j0)
  = component input structure i0 j0.
Proof.
  rewrite component_grown.
  set (n := nrows input * ncols input).
  destruct (grown_count n) as [(j & Hj & Hs)|Hc].
  - assert (H1 : grown input structure i0 j0 (S n)
                 = grown input structure i0 j0 j).
    { replace (S n) with ((S n - j) + j) by lia.
      apply grown_stable; exact Hs. }
    assert (H2 : grown input structure i0 j0 n
                 = grown input structure i0 j0 j).
    { replace n with ((n - j) + j) by lia.
      apply grown_stable; exact Hs. }
    change (grow_step input structure (grown input structure i0 j0 n))
      with (grown input structure i0 j0 (S n)).
    rewrite H1, H2; reflexivity.
  - exfalso.
    assert (Hb : count_true (grown input structure i0 j0 n) <= n).
    { unfold count_true; destruct (grown_shape n) as [-> ->].
      unfold n at 2.
      rewrite <- (length_positions (nrows input) (ncols input)).
      apply filter_length_bound. }
    lia.
Qed.

End Growth.

Lemma adjacent8_sym (p q : nat * nat) : adjacent8 p q -> adjacent8 q p.
Proof. unfold adjacent8; lia. Qed.

Lemma connected8_features (input : ndarray Z) (p q : nat * nat) :
  connected8 input p q -> feature input p /\ feature input q.
Proof.
  induction 1 as [p Hp|p q r _ [Hp _] Hr _]; split; assumption.
Qed.

Lemma connected8_trans (input : ndarray Z) (p q r : nat * nat) :
  connected8 input p q -> connected8 input q r -> connected8 input p r.
Proof.
  intros Hpq Hqr; induction Hqr as [q Hq|q r s _ IH Hs Ha]; [exact Hpq|].
  apply connected8_step with (q := r);
    [apply IH; exact Hpq | exact Hs | exact Ha].
Qed.

Lemma connected8_sym (input : ndarray Z) (p q : nat * nat) :
  connected8 input p q -> connected8 input q p.
Proof.
  induction 1 as [p Hp|p q r Hpq IH Hr Ha]; [constructor; exact Hp|].
  apply (connected8_trans input r q p); [|exact IH].
  apply connected8_step with (q := r);
    [constructor; exact Hr | apply (connected8_features input p q Hpq)
     | apply adjacent8_sym; exact Ha].
Qed.

Lemma in_set_cells_ones (c : nat * nat) :
  In c (set_cells ones3x3) <-> fst c < 3 /\ snd c < 3.
Proof.
  change (set_cells ones3x3) with (positions 3 3); apply in_positions.
Qed.

(** One step with the 3 x 3 structure of ones reaches the features adjacent
    to a pixel already reached. *)
Lemma grow_step_ones (input : ndarray Z) (cur : ndarray bool) (i j : nat) :
  i < nrows input -> j < ncols input ->
  (get false (grow_step input ones3x3 cur) i j = true
   <-> get 0%Z input i j <> 0%Z /\
       exists q, adjacent8 (i, j) q /\ get false cur (fst q) (snd q) = true).
Proof.
  intros Hi Hj; unfold grow_step; rewrite get_tabulate_in by assumption.
  rewrite andb_true_iff, negb_true_iff, Z.eqb_neq, orb_true_iff.
  split; intros [Hf H]; (split; [exact Hf|]).
  - destruct H as [H|H].
    + exists (i, j); split; [unfold adjacent8; simpl; lia | exact H].
    + apply existsb_exists in H; destruct H as [c [Hc H]].
      apply in_set_cells_ones in Hc.
      apply andb_true_iff in H; destruct H as [H Hq].
      apply andb_true_iff in H; destruct H as [H1 H2].
      apply Nat.leb_le in H1, H2.
      exists (i + fst c - 1, j + snd c - 1); split; [|exact Hq].
      unfold adjacent8; simpl; lia.
  - destruct H as [q [Ha Hq]]; right.
    apply existsb_exists.
    exists (fst q + 1 - i, snd q + 1 - j); split.
    + apply in_set_cells_ones; unfold adjacent8 in Ha; cbn [fst snd] in *; lia.
    + unfold adjacent8 in Ha; cbn [fst snd] in *.
      apply andb_true_iff; split;
        [apply andb_true_iff; split; apply Nat.leb_le; lia|].
      replace (i + (fst q + 1 - i) - 1) with (fst q) by lia.
      replace (j + (snd q + 1 - j) - 1) with (snd q) by lia.
      exact Hq.
Qed.

Lemma get_true_in_range (a : ndarray bool) (i j : nat) :
  get false a i j = true -> i < nrows a /\ j < ncols a.
Proof.
  unfold get; destruct (i <? nrows a) eqn:Hi; simpl; [|discriminate].
  destruct (j <? ncols a) eqn:Hj; simpl; [|discriminate].
  apply Nat.ltb_lt in Hi, Hj; auto.
Qed.

Lemma component_adjacent (input : ndarray Z) (s p q : nat * nat) :
  feature input s -> feature input q -> adjacent8 q p ->
  get false (component input ones3x3 (fst s) (snd s)) (fst p) (snd p) = true ->
  get false (component input ones3x3 (fst s) (snd s)) (fst q) (snd q) = true.
Proof.
  intros (Hs1 & Hs2 & Hs3) (Hq1 & Hq2 & Hq3) Ha Hp.
  rewrite <- (component_closed input ones3x3 (fst s) (snd s) Hs1 Hs2 Hs3).
  apply grow_step_ones; [assumption | assumption|].
  split; [exact Hq3|].
  exists p; split; [|exact Hp].
  destruct q; exact Ha.
Qed.

Lemma grown_connected (input : ndarray Z) (s : nat * nat) (k : nat)
    (p : nat * nat) :
  feature input s ->
  get false (grown input ones3x3 (fst s) (snd s) k) (fst p) (snd p) = true ->
  connected8 input s p.
Proof.
  intros Hs; revert p; induction k as [|k IH]; intros p Hp.
  - pose proof (get_true_in_range _ _ _ Hp) as [Hi Hj]; simpl in Hi, Hj.
    unfold grown in Hp; simpl in Hp; rewrite get_tabulate_in in Hp by assumption.
    apply andb_true_iff in Hp; destruct Hp as [H1 H2].
    apply Nat.eqb_eq in H1, H2.
    replace p with s by (destruct p, s; simpl in *; congruence).
    constructor; exact Hs.
  - pose proof (get_true_in_range _ _ _ Hp) as [Hi Hj].
    destruct (grown_shape input ones3x3 (fst s) (snd s) (S k)) as [Hr Hc].
    rewrite Hr in Hi; rewrite Hc in Hj.
    change (grown input ones3x3 (fst s) (snd s) (S k))
      with (grow_step input ones3x3 (grown input ones3x3 (fst s) (snd s) k))
      in Hp.
    apply grow_step_ones in Hp; [|assumption|assumption].
    destruct Hp as [Hf [q [Ha Hq]]].
    apply connected8_step with (q := q).
    + apply IH; exact Hq.
    + repeat split; assumption.
    + apply adjacent8_sym; destruct p; exact Ha.
Qed.

Lemma label_visit_follows (input : ndarray Z) (st : ndarray Z * Z)
    (s : nat * nat) :
  fst s < nrows input -> snd s < ncols input ->
  well_labelled input st ->
  labels_follow_connectivity input st ->
  labels_follow_connectivity input (label_visit input ones3x3 st s).
Proof.
  intros Hi Hj Hst Hfol; pose proof Hst as (Hr & Hc & Hn & Hb & Hs & Hu).
  destruct Hfol as [HJ HK].
  destruct (negb (Z.eqb (get 0%Z input (fst s) (snd s)) 0) &&
            Z.eqb (get 0%Z (fst st) (fst s) (snd s)) 0) eqn:Hcond.
  2:{ unfold label_visit; rewrite Hcond; split; assumption. }
  assert (Hpix : forall i j, i < nrows input -> j < ncols input ->
            get 0%Z (fst (label_visit input ones3x3 st s)) i j
            = if get false (component input ones3x3 (fst s) (snd s)) i j &&
                 Z.eqb (get 0%Z (fst st) i j) 0
              then (snd st + 1)%Z else get 0%Z (fst st) i j).
  { intros i j Hi' Hj'; unfold label_visit; rewrite Hcond; simpl.
    rewrite get_tabulate_in by assumption; reflexivity. }
  assert (Hsnd : snd (label_visit input ones3x3 st s) = (snd st + 1)%Z).
  { unfold label_visit; rewrite Hcond; reflexivity. }
  apply andb_true_iff in Hcond; destruct Hcond as [Hf Hl].
  apply negb_true_iff, Z.eqb_neq in Hf; apply Z.eqb_eq in Hl.
  assert (Hsf : feature input s) by (repeat split; assumption).
  split.
  - intros a b Ha Hbf Hadj.
    pose proof Ha as (Ha1 & Ha2 & Ha3); pose proof Hbf as (Hb1 & Hb2 & Hb3).
    rewrite (Hpix (fst a) (snd a)) by assumption.
    rewrite (Hpix (fst b) (snd b)) by assumption.
    destruct (Z.eqb_spec (get 0%Z (fst st) (fst a) (snd a)) 0) as [Hza|Hnza].
    + rewrite andb_true_r.
      destruct (get false (component input ones3x3 (fst s) (snd s))
                  (fst a) (snd a)) eqn:Hca; [intros _ | intros H; contradiction].
      rewrite (component_adjacent input s a b Hsf Hbf
                 (adjacent8_sym a b Hadj) Hca).
      destruct (Z.eqb_spec (get 0%Z (fst st) (fst b) (snd b)) 0) as [Hzb|Hnzb];
        [reflexivity|].
      exfalso; apply Hnzb.
      rewrite <- (HJ b a Hbf Ha (adjacent8_sym a b Hadj) Hnzb); exact Hza.
    + rewrite andb_false_r; intros _.
      pose proof (HJ a b Ha Hbf Hadj Hnza) as Heq.
      rewrite Heq.
      destruct (Z.eqb_spec (get 0%Z (fst st) (fst a) (snd a)) 0);
        [contradiction|].
      rewrite andb_false_r; reflexivity.
  - intros l Hl'; rewrite Hsnd in Hl'.
    destruct (Z.eq_dec l (snd st + 1)) as [->|Hne].
    + exists s; intros p Hp1 Hp2; rewrite Hpix by assumption.
      destruct (get false (component input ones3x3 (fst s) (snd s))
                  (fst p) (snd p)) eqn:Hcp.
      * intros _; apply (grown_connected input s
                           (nrows input * ncols input) p Hsf); exact Hcp.
      * simpl; intros H; specialize (Hb (fst p) (snd p) Hp1 Hp2); lia.
    + destruct (HK l ltac:(lia)) as [r Hrep].
      exists r; intros p Hp1 Hp2; rewrite Hpix by assumption.
      destruct (_ && _); [intros H; lia | apply Hrep; assumption].
Qed.

Lemma label_follows (input : ndarray Z) :
  well_labelled input (label input ones3x3) /\
  labels_follow_connectivity input (label input ones3x3).
Proof.
  unfold label; apply fold_left_invariant.
  - split; [apply well_labelled_start|].
    split; simpl.
    + intros p q (Hp1 & Hp2 & _) _ _ H; exfalso; apply H.
      apply all_zero_np_zeros; assumption.
    + intros l Hl; lia.
  - intros st p Hp [Hw Hf]; apply in_positions in Hp; destruct Hp as [Hi Hj].
    split.
    + apply label_visit_well_labelled; assumption.
    + apply label_visit_follows; assumption.
Qed.

(** Two features bear one label exactly when a chain of adjacent features
    joins them. *)
Lemma label_connectivity (input : ndarray Z) (p q : nat * nat) :
  feature input p -> feature input q ->
  (get 0%Z (fst (label input ones3x3)) (fst p) (snd p)
   = get 0%Z (fst (label input ones3x3)) (fst q) (snd q)
   <-> connected8 input p q).
Proof.
  intros Hp Hq.
  destruct (label_follows input) as [Hw [HJ HK]].
  destruct (label_spec input ones3x3) as [_ Hzero].
  pose proof Hw as (_ & _ & _ & Hb & _).
  assert (Hnz : forall x, feature input x ->
            get 0%Z (fst (label input ones3x3)) (fst x) (snd x) <> 0%Z).
  { intros x (Hx1 & Hx2 & Hx3) H; apply Hx3, Hzero; assumption. }
  split.
  - intros Heq.
    pose proof Hp as (Hp1 & Hp2 & _); pose proof Hq as (Hq1 & Hq2 & _).
    pose proof (Hb _ _ Hp1 Hp2) as Hbp; pose proof (Hnz p Hp) as Hnp.
    destruct (HK (get 0%Z (fst (label input ones3x3)) (fst p) (snd p))
                ltac:(lia)) as [r Hrep].
    apply (connected8_trans input p r q).
    + apply connected8_sym, Hrep; [assumption | assumption | reflexivity].
    + apply Hrep; [assumption | assumption | symmetry; exact Heq].
  - intros Hcon; induction Hcon as [p _|p q r Hpq IH Hr Ha]; [reflexivity|].
    destruct (connected8_features input p q Hpq) as [_ Hqf].
    rewrite (IH Hp Hqf).
    symmetry; apply (HJ q r Hqf Hr Ha), Hnz; exact Hqf.
Qed.

(** ** The order of floats *)

(** The comparison of the specification floats is a total preorder on the
    numbers: an order by sign, then exponent, then mantissa. *)
Lemma SFcompare_antisym (x y : spec_float) :
  SFcompare y x = option_map CompOpp (SFcompare x y).
Proof.
  destruct x as [sx|sx| |sx mx ex], y as [sy|sy| |sy my ey]; simpl;
    try destruct sx; try destruct sy; try reflexivity;
    rewrite (Z.compare_antisym ex ey);
    destruct (ex ?= ey)%Z; simpl; try reflexivity;
    change (Pos.compare_cont Eq my mx) with (Pos.compare my mx);
    change (Pos.compare_cont Eq mx my) with (Pos.compare mx my);
    rewrite (Pos.compare_antisym mx my);
    destruct (mx ?= my)%positive; reflexivity.
Qed.

Lemma SFleb_trans (x y z : spec_float) :
  SFleb x y = true -> SFleb y z = true -> SFleb x z = true.
Proof.
  unfold SFleb.
  destruct x as [sx|sx| |sx mx ex], y as [sy|sy| |sy my ey],
           z as [sz|sz| |sz mz ez]; simpl;
    try destruct sx; try destruct sy; try destruct sz; simpl;
    try discriminate; try reflexivity;
    change (Pos.compare_cont Eq mx my) with (Pos.compare mx my);
    change (Pos.compare_cont Eq my mz) with (Pos.compare my mz);
    change (Pos.compare_cont Eq mx mz) with (Pos.compare mx mz);
    destruct (Z.compare_spec ex ey), (Z.compare_spec ey ez),
             (Z.compare_spec ex ez); simpl;
    try discriminate; try reflexivity; try lia;
    destruct (Pos.compare_spec mx my), (Pos.compare_spec my mz),
             (Pos.compare_spec mx mz); simpl;
    try discriminate; try reflexivity; try lia.
Qed.

Lemma SFeqb_leb (x y : spec_float) :
  SFeqb x y = SFleb x y && SFleb y x.
Proof.
  unfold SFeqb, SFleb; rewrite (SFcompare_antisym x y).
  destruct (SFcompare x y) as [[| |]|]; reflexivity.
Qed.

Lemma SFltb_false_leb (x y : spec_float) :
  SFeqb x x = true -> SFeqb y y = true ->
  SFltb x y = false -> SFleb y x = true.
Proof.
  unfold SFltb, SFleb; rewrite (SFcompare_antisym x y).
  intros Hx Hy; destruct (SFcompare x y) as [[| |]|] eqn:Hc; simpl;
    try discriminate; try reflexivity.
  destruct x, y; simpl in *; discriminate.
Qed.

Lemma SFltb_leb (x y : spec_float) : SFltb x y = true -> SFleb x y = true.
Proof.
  unfold SFltb, SFleb; destruct (SFcompare x y) as [[| |]|];
    try discriminate; reflexivity.
Qed.

Lemma not_nan_eqb (x : float) : not_nan x <-> PrimFloat.eqb x x = true.
Proof.
  unfold not_nan, PrimFloat.is_nan; destruct (PrimFloat.eqb x x); simpl;
    split; congruence.
Qed.

Lemma float_leb_refl (x : float) : not_nan x -> PrimFloat.leb x x = true.
Proof.
  intros H; apply not_nan_eqb in H.
  rewrite FloatAxioms.eqb_spec, SFeqb_leb in H.
  rewrite FloatAxioms.leb_spec; apply andb_true_iff in H; apply H.
Qed.

Lemma float_leb_trans (x y z : float) :
  PrimFloat.leb x y = true -> PrimFloat.leb y z = true ->
  PrimFloat.leb x z = true.
Proof. rewrite !FloatAxioms.leb_spec; apply SFleb_trans. Qed.

Lemma float_eqb_leb (x y : float) :
  PrimFloat.eqb x y = PrimFloat.leb x y && PrimFloat.leb y x.
Proof.
  rewrite FloatAxioms.eqb_spec, !FloatAxioms.leb_spec; apply SFeqb_leb.
Qed.

Lemma float_ltb_leb (x y : float) :
  PrimFloat.ltb x y = true -> PrimFloat.leb x y = true.
Proof.
  rewrite FloatAxioms.ltb_spec, FloatAxioms.leb_spec; apply SFltb_leb.
Qed.

Lemma float_not_ltb (x y : float) :
  not_nan x -> not_nan y ->
  PrimFloat.ltb x y = false -> PrimFloat.leb y x = true.
Proof.
  intros Hx Hy; apply not_nan_eqb in Hx, Hy; revert Hx Hy.
  rewrite !FloatAxioms.eqb_spec, FloatAxioms.ltb_spec, FloatAxioms.leb_spec.
  apply SFltb_false_leb.
Qed.

(** ** The sliding maximum *)

Lemma float_max_cases (x y : float) : float_max x y = x \/ float_max x y = y.
Proof. unfold float_max; destruct (PrimFloat.ltb x y); auto. Qed.

Lemma float_max_ge_l (x y : float) :
  not_nan x -> PrimFloat.leb x (float_max x y) = true.
Proof.
  intros Hx; unfold float_max; destruct (PrimFloat.ltb x y) eqn:H.
  - apply float_ltb_leb; exact H.
  - apply float_leb_refl; exact Hx.
Qed.

Lemma float_max_ge_r (x y : float) :
  not_nan x -> not_nan y -> PrimFloat.leb y (float_max x y) = true.
Proof.
  intros Hx Hy; unfold float_max; destruct (PrimFloat.ltb x y) eqn:H.
  - apply float_leb_refl; exact Hy.
  - apply float_not_ltb; assumption.
Qed.

Lemma fold_float_max_not_nan (l : list float) :
  (forall x, In x l -> not_nan x) ->
  not_nan (fold_right float_max PrimFloat.neg_infinity l).
Proof.
  induction l as [|x l IH]; intros H; simpl; [reflexivity|].
  destruct (float_max_cases x (fold_right float_max PrimFloat.neg_infinity l))
    as [-> | ->]; [apply H; left; reflexivity|].
  apply IH; intros y Hy; apply H; right; exact Hy.
Qed.

(** The maximum of a window is not below any of its pixels... *)
Lemma fold_float_max_ge (l : list float) (x : float) :
  (forall y, In y l -> not_nan y) -> In x l ->
  PrimFloat.leb x (fold_right float_max PrimFloat.neg_infinity l) = true.
Proof.
  induction l as [|y l IH]; intros H Hin; simpl; [destruct Hin|].
  assert (Hl : forall z, In z l -> not_nan z)
    by (intros z Hz; apply H; right; exact Hz).
  pose proof (fold_float_max_not_nan l Hl) as Hm.
  pose proof (H y (or_introl eq_refl)) as Hy.
  destruct Hin as [<- | Hin].
  - apply float_max_ge_l; exact Hy.
  - apply (float_leb_trans x (fold_right float_max PrimFloat.neg_infinity l)).
    + apply IH; assumption.
    + apply float_max_ge_r; assumption.
Qed.

(** ... and is one of them. *)
Lemma fold_float_max_in (l : list float) :
  l <> [] -> In (fold_right float_max PrimFloat.neg_infinity l) l.
Proof.
  induction l as [|x l IH]; intros Hne; [contradiction|]; simpl.
  destruct l as [|y l].
  - left; simpl; unfold float_max.
    replace (PrimFloat.ltb x PrimFloat.neg_infinity) with false; [reflexivity|].
    symmetry; rewrite FloatAxioms.ltb_spec.
    change (Prim2SF PrimFloat.neg_infinity) with (S754_infinity true).
    destruct (Prim2SF x) as [[|]|[|]| |[|] m e]; reflexivity.
  - destruct (float_max_cases x
                (fold_right float_max PrimFloat.neg_infinity (y :: l)))
      as [-> | ->]; [left; reflexivity|].
    right; apply IH; discriminate.
Qed.

Lemma fold_float_max_eqb (l : list float) (c : float) :
  (forall y, In y l -> not_nan y) -> In c l ->
  (PrimFloat.eqb (fold_right float_max PrimFloat.neg_infinity l) c = true
   <-> forall y, In y l -> PrimFloat.leb y c = true).
Proof.
  intros Hr Hc; rewrite float_eqb_leb, andb_true_iff; split.
  - intros [Hle _] y Hy.
    apply (float_leb_trans y (fold_right float_max PrimFloat.neg_infinity l));
      [apply fold_float_max_ge; assumption | exact Hle].
  - intros Hall; split.
    + apply Hall, fold_float_max_in; intros ->; destruct Hc.
    + apply fold_float_max_ge; assumption.
Qed.

Lemma reflect_inside (n i : nat) : i < n -> reflect n (Z.of_nat i) = i.
Proof.
  intros H; unfold reflect.
  rewrite Z.mod_small by lia.
  destruct (Z.ltb_spec (Z.of_nat i) (Z.of_nat n)); lia.
Qed.

Lemma no_nan_get (a : ndarray float) (i j : nat) :
  no_nan a -> not_nan (get 0%float a i j).
Proof.
  intros H.
  destruct (Nat.lt_ge_cases i (nrows a)) as [Hi|Hi];
    [destruct (Nat.lt_ge_cases j (ncols a)) as [Hj|Hj]|].
  - apply H; assumption.
  - rewrite get_outside by lia; reflexivity.
  - rewrite get_outside by lia; reflexivity.
Qed.

(** The pixels of the 9 x 9 window: four rows and four columns to each side,
    mirrored at the edges of the array. *)
Lemma in_window (a : ndarray float) (i j : nat) (x : float) :
  In x (window 9 a i j) <->
  exists di dj, di < 9 /\ dj < 9 /\
    x = get 0%float a
          (reflect (nrows a) (Z.of_nat i + Z.of_nat di - 4))
          (reflect (ncols a) (Z.of_nat j + Z.of_nat dj - 4)).
Proof.
  unfold window; rewrite in_map_iff; split.
  - intros [[di dj] [Hx Hp]]; apply in_positions in Hp; destruct Hp as [H1 H2].
    exists di, dj; split; [exact H1|split; [exact H2|]].
    symmetry; exact Hx.
  - intros (di & dj & H1 & H2 & ->); exists (di, dj); split; [reflexivity|].
    apply in_positions; split; assumption.
Qed.

(** A pixel equals the sliding maximum exactly when no pixel of its window
    exceeds it. *)
Lemma local_maximum (dt : ndarray float) (i j : nat) :
  no_nan dt -> i < nrows dt -> j < ncols dt ->
  (PrimFloat.eqb (get 0%float (maximum_filter dt 9) i j) (get 0%float dt i j)
   = true
   <-> forall di dj, di < 9 -> dj < 9 ->
         PrimFloat.leb
           (get 0%float dt
              (reflect (nrows dt) (Z.of_nat i + Z.of_nat di - 4))
              (reflect (ncols dt) (Z.of_nat j + Z.of_nat dj - 4)))
           (get 0%float dt i j) = true).
Proof.
  intros Hn Hi Hj.
  unfold maximum_filter; rewrite get_tabulate_in by assumption.
  rewrite fold_float_max_eqb.
  - split.
    + intros H di dj Hdi Hdj; apply H, in_window.
      exists di, dj; split; [exact Hdi|split; [exact Hdj|reflexivity]].
    + intros H y Hy; apply in_window in Hy.
      destruct Hy as (di & dj & Hdi & Hdj & ->); apply H; assumption.
  - intros y Hy; apply in_window in Hy.
    destruct Hy as (di & dj & _ & _ & ->); apply no_nan_get; exact Hn.
  - apply in_window; exists 4, 4; split; [lia|split; [lia|]].
    replace (Z.of_nat i + Z.of_nat 4 - 4)%Z with (Z.of_nat i) by lia.
    replace (Z.of_nat j + Z.of_nat 4 - 4)%Z with (Z.of_nat j) by lia.
    rewrite !reflect_inside by assumption; reflexivity.
Qed.

(** ** The dilation of a mask *)

Lemma fold_max_255 (l : list Z) :
  (forall x, In x l -> bit255 x) ->
  (fold_right Z.max 0%Z l = 255%Z <-> In 255%Z l).
Proof.
  induction l as [|x l IH]; intros H; simpl; [split; [discriminate|tauto]|].
  specialize (IH (fun y Hy => H y (or_intror Hy))).
  pose proof (fold_max_bit255 l (fun y Hy => H y (or_intror Hy))) as Hm.
  destruct (H x (or_introl eq_refl)) as [-> | ->].
  - rewrite Z.max_r by (destruct Hm as [-> | ->]; lia).
    rewrite IH; split; [tauto | intros [H0|H0]; [discriminate | exact H0]].
  - rewrite Z.max_l by (destruct Hm as [-> | ->]; lia).
    split; [left; reflexivity | reflexivity].
Qed.

(** One pass sets a pixel exactly when the element, anchored on it, has a
    set cell over a set pixel of the image. *)
Lemma get_dilate1_255 (k : kernel) (img : ndarray Z) (i j : nat) :
  binary_mask img -> i < nrows img -> j < ncols img ->
  (get 0%Z (dilate1 k img) i j = 255%Z
   <-> exists i' j', covers k i j i' j' = true /\ get 0%Z img i' j' = 255%Z).
Proof.
  intros Hb Hi Hj; unfold dilate1; rewrite get_tabulate_in by assumption.
  rewrite fold_max_255.
  2:{ intros x Hx; apply in_map_iff in Hx; destruct Hx as [p [<- _]].
      apply probe_bit255; [exact Hb | left; reflexivity]. }
  rewrite in_map_iff; unfold covers, probe; split.
  - intros [p [Hp Hin]].
    destruct (fst (anchor (effective_kernel k)) <=? i + fst p) eqn:H1;
      [|discriminate].
    destruct (snd (anchor (effective_kernel k)) <=? j + snd p) eqn:H2;
      [|discriminate].
    apply Nat.leb_le in H1, H2; cbn [andb] in Hp.
    eexists; eexists; split; [|exact Hp].
    apply existsb_exists; exists p; split; [exact Hin|].
    apply andb_true_iff; split; apply Nat.eqb_eq; lia.
  - intros (i' & j' & Hc & Hg).
    apply existsb_exists in Hc; destruct Hc as [p [Hin Hc]].
    apply andb_true_iff in Hc; destruct Hc as [H1 H2].
    apply Nat.eqb_eq in H1, H2.
    exists p; split; [|exact Hin].
    replace (fst (anchor (effective_kernel k)) <=? i + fst p) with true
      by (symmetry; apply Nat.leb_le; lia).
    replace (snd (anchor (effective_kernel k)) <=? j + snd p) with true
      by (symmetry; apply Nat.leb_le; lia).
    cbn [andb]; rewrite <- Hg; f_equal; lia.
Qed.

Lemma get_255_in_range (a : ndarray Z) (i j : nat) :
  get 0%Z a i j = 255%Z -> i < nrows a /\ j < ncols a.
Proof.
  intros H.
  destruct (Nat.lt_ge_cases i (nrows a)) as [Hi|Hi];
    [destruct (Nat.lt_ge_cases j (ncols a)) as [Hj|Hj]; [auto|]|];
    rewrite get_outside in H by lia; discriminate.
Qed.

(** Two passes set a pixel exactly when a set pixel of the image is reached
    from it in two steps of the element, through a pixel of the image. *)
Lemma get_dilate2_255 (k : kernel) (img : ndarray Z) (i j : nat) :
  binary_mask img -> i < nrows img -> j < ncols img ->
  (get 0%Z (dilate img k 2) i j = 255%Z
   <-> exists i1 j1 i2 j2,
         i1 < nrows img /\ j1 < ncols img /\
         covers k i j i1 j1 = true /\ covers k i1 j1 i2 j2 = true /\
         get 0%Z img i2 j2 = 255%Z).
Proof.
  intros Hb Hi Hj.
  change (dilate img k 2) with (dilate1 k (dilate1 k img)).
  assert (Hr : nrows (dilate1 k img) = nrows img) by reflexivity.
  assert (Hc : ncols (dilate1 k img) = ncols img) by reflexivity.
  rewrite get_dilate1_255;
    [|apply dilate1_binary; exact Hb|rewrite Hr; exact Hi|rewrite Hc; exact Hj].
  split.
  - intros (i1 & j1 & Hc1 & Hg).
    destruct (get_255_in_range _ _ _ Hg) as [Hi1 Hj1].
    rewrite Hr in Hi1; rewrite Hc in Hj1.
    apply get_dilate1_255 in Hg; [|assumption..].
    destruct Hg as (i2 & j2 & Hc2 & Hg).
    exists i1, j1, i2, j2; auto.
  - intros (i1 & j1 & i2 & j2 & Hi1 & Hj1 & Hc1 & Hc2 & Hg).
    exists i1, j1; split; [exact Hc1|].
    apply get_dilate1_255; [assumption..|].
    exists i2, j2; auto.
Qed.

(** C8: a pixel of the marker mask is set exactly when the distance field
    equals its 9 x 9 sliding maximum there and the pixel is foreground; on a
    field of numbers the first holds exactly when none of the 81 pixels four
    rows and four columns around it, mirrored at the edges, exceeds it.  The
    mask is dilated by two passes of the main element: a pixel of the result
    is set exactly when a seed candidate lies two steps of the element away.
    It is then labelled through the nine cells of the 3 x 3 structure: the
    labels are 0 where the dilated mask is 0 and run over 1..N elsewhere, each
    number in use, and two pixels of the dilated mask bear one label exactly
    when a chain of pixels of it, each touching the next by a side or a
    corner, joins them. *)
Theorem seed_extraction (S : AggregateSegmenter) (dt : ndarray float)
    (internal_binary : ndarray Z) (i j : nat) :
  i < nrows dt -> j < ncols dt ->
  (get 0%Z (marker_mask dt internal_binary) i j = 255%Z
   <-> PrimFloat.eqb (get 0%float (maximum_filter dt 9) i j)
                     (get 0%float dt i j) = true /\
       get 0%Z internal_binary i j <> 0%Z) /\
  (no_nan dt ->
   (PrimFloat.eqb (get 0%float (maximum_filter dt 9) i j)
                  (get 0%float dt i j) = true
    <-> forall di dj, di < 9 -> dj < 9 ->
          PrimFloat.leb
            (get 0%float dt
               (reflect (nrows dt) (Z.of_nat i + Z.of_nat di - 4))
               (reflect (ncols dt) (Z.of_nat j + Z.of_nat dj - 4)))
            (get 0%float dt i j) = true)) /\
  bit255 (get 0%Z (marker_mask dt internal_binary) i j) /\
  get 0%float (maximum_filter dt 9) i j
  = fold_right float_max PrimFloat.neg_infinity (window 9 dt i j) /\
  length (window 9 dt i j) = 81 /\
  label_markers S (marker_mask dt internal_binary)
  = label (astype_int32
             (dilate1 (struct_elem S)
                (dilate1 (struct_elem S) (marker_mask dt internal_binary))))
          ones3x3 /\
  set_cells ones3x3 = positions 3 3 /\
  (get 0%Z (dilate (marker_mask dt internal_binary) (struct_elem S) 2) i j
   = 255%Z
   <-> exists i1 j1 i2 j2,
         i1 < nrows dt /\ j1 < ncols dt /\
         covers (struct_elem S) i j i1 j1 = true /\
         covers (struct_elem S) i1 j1 i2 j2 = true /\
         get 0%Z (marker_mask dt internal_binary) i2 j2 = 255%Z) /\
  well_labelled
    (astype_int32 (dilate (marker_mask dt internal_binary) (struct_elem S) 2))
    (label_markers S (marker_mask dt internal_binary)) /\
  (get 0%Z (fst (label_markers S (marker_mask dt internal_binary))) i j = 0%Z
   <-> get 0%Z (dilate (marker_mask dt internal_binary) (struct_elem S) 2) i j
       = 0%Z) /\
  (forall p q,
     feature (astype_int32
                (dilate (marker_mask dt internal_binary) (struct_elem S) 2)) p ->
     feature (astype_int32
                (dilate (marker_mask dt internal_binary) (struct_elem S) 2)) q ->
     (get 0%Z (fst (label_markers S (marker_mask dt internal_binary)))
        (fst p) (snd p)
      = get 0%Z (fst (label_markers S (marker_mask dt internal_binary)))
          (fst q) (snd q)
      <-> connected8
            (astype_int32
               (dilate (marker_mask dt internal_binary) (struct_elem S) 2))
            p q)).
Proof.
  intros Hi Hj.
  split; [|split; [|split; [|split; [|split; [|split; [|split; [|split;
    [|split; [|split]]]]]]]]].
  - rewrite get_marker_mask by assumption.
    fold (local_max_ind dt i j).
    destruct (Z.eqb_spec (get 0%Z internal_binary i j) 0) as [Hz|Hnz].
    + split; [discriminate | intros [_ H]; contradiction].
    + destruct (local_max_ind dt i j).
      * split; [intros _; split; [reflexivity | exact Hnz] | reflexivity].
      * split; [discriminate | intros [H _]; discriminate].
  - intros Hn; apply local_maximum; assumption.
  - apply marker_mask_binary; assumption.
  - unfold maximum_filter; rewrite get_tabulate_in by assumption; reflexivity.
  - unfold window; rewrite length_map; reflexivity.
  - reflexivity.
  - reflexivity.
  - destruct (marker_mask_shape dt internal_binary) as [Hr Hc].
    rewrite <- Hr, <- Hc.
    apply get_dilate2_255;
      [apply marker_mask_binary | rewrite Hr; exact Hi | rewrite Hc; exact Hj].
  - apply label_spec.
  - unfold label_markers.
    destruct (label_spec
                (astype_int32
                   (dilate (marker_mask dt internal_binary) (struct_elem S) 2))
                ones3x3) as [_ Hiff].
    rewrite Hiff by assumption.
    rewrite get_astype_int32_binary; [reflexivity| |assumption|assumption].
    apply dilate_binary, marker_mask_binary.
  - intros p q Hp Hq; unfold label_markers.
    apply label_connectivity; assumption.
Qed.

Lemma dot_field_no_nan : no_nan dot_field.
Proof.
  intros i j Hi Hj; simpl in Hi, Hj.
  do 5 (destruct i as [|i]; [do 5 (destruct j as [|j];
          [reflexivity|]); lia|]); lia.
Qed.

Lemma seed_extraction_witness :
  get 0%Z (marker_mask dot_field dot_mask) 2 2 = 255%Z /\
  get 0%Z (marker_mask dot_field dot_mask) 1 3 = 0%Z /\
  get 0%Z (dilate (marker_mask dot_field dot_mask)
             (struct_elem default_segmenter) 2) 0 4 = 255%Z /\
  get 0%Z (fst (label_markers default_segmenter
                  (marker_mask dot_field dot_mask))) 0 4 <> 0%Z.
Proof.
  assert (H22 : get 0%Z (marker_mask dot_field dot_mask) 2 2 = 255%Z).
  { destruct (seed_extraction default_segmenter dot_field dot_mask 2 2)
      as (Hcand & Hwin & _); [simpl; lia | simpl; lia |].
    apply Hcand; split; [|discriminate].
    apply (Hwin dot_field_no_nan); intros di dj Hdi Hdj.
    do 9 (destruct di as [|di]; [do 9 (destruct dj as [|dj];
            [reflexivity|]); lia|]); lia. }
  destruct (seed_extraction default_segmenter dot_field dot_mask 0 4)
    as (_ & _ & _ & _ & _ & _ & _ & Hdil & _ & Hlab & _);
    [simpl; lia | simpl; lia |].
  assert (Hd : get 0%Z (dilate (marker_mask dot_field dot_mask)
                          (struct_elem default_segmenter) 2) 0 4 = 255%Z).
  { apply Hdil; exists 1, 3, 2, 2.
    split; [simpl; lia|]. split; [simpl; lia|].
    split; [reflexivity|]. split; [reflexivity | exact H22]. }
  split; [exact H22|]. split; [reflexivity|]. split; [exact Hd|].
  intros H; apply Hlab in H; rewrite Hd in H; discriminate.
Defined.

(** ** The last erosion and dilation *)

(** The result of lines 228-229 can cover more pixels than their argument:
    the small element is not contained in the main one (its cells two rows
    and three columns, or three rows and two columns, away from the anchor
    are set), so the dilation reaches background pixels that the erosion
    never cleared. *)
Example sharpen_can_grow :
  binary_mask disc_grid /\
  count_value 255 disc_grid = 1989 /\
  count_value 255 (sharpen default_segmenter disc_grid) = 2016.
Proof.
  split; [apply dilate_binary|split; vm_compute; reflexivity].
  apply binary_mask_tabulate; intros i j _ _.
  destruct (_ && _); [right | left]; reflexivity.
Qed.

(** Whenever the tracing gives a hierarchy the two copies of [segment] end
    alike, with one mask or with one exception: the test for None is all
    that tells them apart. *)
Theorem copies_agree_on_traced_contours (L : collaborators)
    (S : AggregateSegmenter) (np_image : ndarray rgba) :
  snd (findContours L (initial_mask L S np_image)) <> None ->
  AggregateProcessing.segment L S np_image = Segmenters.segment L S np_image.
Proof.
  intros H.
  destruct (snd (findContours L (initial_mask L S np_image)))
    as [hierarchy0|] eqn:Hh; [|contradiction].
  apply (segment_past_subscript L S np_image hierarchy0); exact Hh.
Qed.

Lemma copies_agree_on_traced_contours_witness :
  AggregateProcessing.segment answers_point_hole default_segmenter opaque_tile
  = Segmenters.segment answers_point_hole default_segmenter opaque_tile.
Proof.
  apply (copies_agree_on_traced_contours answers_point_hole default_segmenter
           opaque_tile).
  discriminate.
Defined.

(* ================================================================== *)
(** * Further properties *)

(** ** SlideSegmenter *)

Lemma Ok_injective (A : Type) (a b : A) : Ok a = Ok b -> a = b.
Proof. intros H; injection H as H; exact H. Qed.

Lemma threshold_binary_inv_binary (img : ndarray Z) (thresh : Z) :
  binary_mask (threshold_binary_inv img thresh 255).
Proof.
  apply binary_mask_tabulate; intros i j _ _.
  destruct (thresh <? _)%Z; [left | right]; reflexivity.
Qed.

Lemma slide_segment_three (S : Slide.SlideSegmenter) (np_image : ndarray rgb)
    (n0 n1 n2 : nat) (rest : list nat) :
  Slide.nb_morph_iter S = n0 :: n1 :: n2 :: rest ->
  Slide.segment S np_image
  = Ok (morphologyEx
          (morphologyEx
             (morphologyEx
                (threshold_binary_inv (Slide.grey_of S np_image)
                   (Slide.threshold S) 255)
                MORPH_CLOSE (Slide.struct_elem S) n0)
             MORPH_OPEN (Slide.struct_elem S) n1)
          MORPH_CLOSE (Slide.struct_elem S) n2).
Proof.
  intros H; unfold Slide.segment, list_item; rewrite H; reflexivity.
Qed.

(** [segment] of the slide segmenter hands back a mask of 0 and 255 with the
    height and width of the image when [nb_morph_iter] has three counts or
    more, and raises IndexError when it has fewer. *)
Theorem slide_segment_outcome (S : Slide.SlideSegmenter)
    (np_image : ndarray rgb) :
  (length (Slide.nb_morph_iter S) < 3 /\
   Slide.segment S np_image = Raise IndexError) \/
  (3 <= length (Slide.nb_morph_iter S) /\
   exists out,
     Slide.segment S np_image = Ok out /\
     nrows out = nrows np_image /\ ncols out = ncols np_image /\
     binary_mask out).
Proof.
  destruct (Slide.nb_morph_iter S) as [|n0 [|n1 [|n2 rest]]] eqn:Hn.
  - left; split; [simpl; lia|].
    unfold Slide.segment, list_item; rewrite Hn; reflexivity.
  - left; split; [simpl; lia|].
    unfold Slide.segment, list_item; rewrite Hn; reflexivity.
  - left; split; [simpl; lia|].
    unfold Slide.segment, list_item; rewrite Hn; reflexivity.
  - right; split; [simpl; lia|].
    eexists; split; [apply (slide_segment_three S np_image n0 n1 n2 rest Hn)|].
    split; [|split].
    + destruct (morphologyEx_shape
                  (morphologyEx
                     (morphologyEx
                        (threshold_binary_inv (Slide.grey_of S np_image)
                           (Slide.threshold S) 255)
                        MORPH_CLOSE (Slide.struct_elem S) n0)
                     MORPH_OPEN (Slide.struct_elem S) n1)
                  MORPH_CLOSE (Slide.struct_elem S) n2) as [-> _].
      destruct (morphologyEx_shape
                  (morphologyEx
                     (threshold_binary_inv (Slide.grey_of S np_image)
                        (Slide.threshold S) 255)
                     MORPH_CLOSE (Slide.struct_elem S) n0)
                  MORPH_OPEN (Slide.struct_elem S) n1) as [-> _].
      destruct (morphologyEx_shape
                  (threshold_binary_inv (Slide.grey_of S np_image)
                     (Slide.threshold S) 255)
                  MORPH_CLOSE (Slide.struct_elem S) n0) as [-> _].
      unfold threshold_binary_inv, Slide.grey_of, cvtColor_RGB2GRAY;
        reflexivity.
    + destruct (morphologyEx_shape
                  (morphologyEx
                     (morphologyEx
                        (threshold_binary_inv (Slide.grey_of S np_image)
                           (Slide.threshold S) 255)
                        MORPH_CLOSE (Slide.struct_elem S) n0)
                     MORPH_OPEN (Slide.struct_elem S) n1)
                  MORPH_CLOSE (Slide.struct_elem S) n2) as [_ ->].
      destruct (morphologyEx_shape
                  (morphologyEx
                     (threshold_binary_inv (Slide.grey_of S np_image)
                        (Slide.threshold S) 255)
                     MORPH_CLOSE (Slide.struct_elem S) n0)
                  MORPH_OPEN (Slide.struct_elem S) n1) as [_ ->].
      destruct (morphologyEx_shape
                  (threshold_binary_inv (Slide.grey_of S np_image)
                     (Slide.threshold S) 255)
                  MORPH_CLOSE (Slide.struct_elem S) n0) as [_ ->].
      unfold threshold_binary_inv, Slide.grey_of, cvtColor_RGB2GRAY;
        reflexivity.
    + apply morphologyEx_binary, morphologyEx_binary, morphologyEx_binary,
        threshold_binary_inv_binary.
Qed.

(** *** The higher the threshold, the more foreground *)

Lemma below_tabulate (h w : nat) (f g : nat -> nat -> Z) :
  (forall i j, i < h -> j < w -> (f i j <= g i j)%Z) ->
  below (tabulate h w f) (tabulate h w g).
Proof.
  intros H; split; [reflexivity|]. split; [reflexivity|].
  intros d i j; rewrite !get_tabulate.
  destruct (i <? h) eqn:Hi; simpl; [|lia].
  destruct (j <? w) eqn:Hj; simpl; [|lia].
  apply Nat.ltb_lt in Hi, Hj; apply H; assumption.
Qed.

Lemma probe_below (d : Z) (a b : ndarray Z) (k : kernel) (i j : nat)
    (p : nat * nat) :
  below a b -> (probe d a k i j p <= probe d b k i j p)%Z.
Proof.
  intros (_ & _ & H); unfold probe.
  destruct (_ && _); [apply H | lia].
Qed.

Lemma fold_max_map_le (A : Type) (f g : A -> Z) (l : list A) :
  (forall x, (f x <= g x)%Z) ->
  (fold_right Z.max 0 (map f l) <= fold_right Z.max 0 (map g l))%Z.
Proof.
  intros H; induction l as [|x l IH]; simpl; [lia|].
  specialize (H x); lia.
Qed.

Lemma fold_min_map_le (A : Type) (f g : A -> Z) (l : list A) :
  (forall x, (f x <= g x)%Z) ->
  (fold_right Z.min 255 (map f l) <= fold_right Z.min 255 (map g l))%Z.
Proof.
  intros H; induction l as [|x l IH]; simpl; [lia|].
  specialize (H x); lia.
Qed.

Lemma dilate1_below (k : kernel) (a b : ndarray Z) :
  below a b -> below (dilate1 k a) (dilate1 k b).
Proof.
  intros H; pose proof H as (Hr & Hc & _).
  unfold dilate1; rewrite Hr, Hc.
  apply below_tabulate; intros i j _ _.
  apply fold_max_map_le; intros p; apply probe_below; exact H.
Qed.

Lemma erode1_below (k : kernel) (a b : ndarray Z) :
  below a b -> below (erode1 k a) (erode1 k b).
Proof.
  intros H; pose proof H as (Hr & Hc & _).
  unfold erode1; rewrite Hr, Hc.
  apply below_tabulate; intros i j _ _.
  apply fold_min_map_le; intros p; apply probe_below; exact H.
Qed.

Lemma dilate_below (k : kernel) (n : nat) (a b : ndarray Z) :
  below a b -> below (dilate a k n) (dilate b k n).
Proof.
  intros H; unfold dilate; induction n as [|n IH]; simpl;
    [exact H | apply dilate1_below; exact IH].
Qed.

Lemma erode_below (k : kernel) (n : nat) (a b : ndarray Z) :
  below a b -> below (erode a k n) (erode b k n).
Proof.
  intros H; unfold erode; induction n as [|n IH]; simpl;
    [exact H | apply erode1_below; exact IH].
Qed.

Lemma morphologyEx_below (op : morph_op) (k : kernel) (n : nat)
    (a b : ndarray Z) :
  below a b -> below (morphologyEx a op k n) (morphologyEx b op k n).
Proof.
  intros H; destruct op; simpl;
    auto using dilate_below, erode_below.
Qed.

Lemma threshold_below (img : ndarray Z) (t1 t2 : Z) :
  (t1 <= t2)%Z ->
  below (threshold_binary_inv img t1 255) (threshold_binary_inv img t2 255).
Proof.
  intros Ht; unfold threshold_binary_inv.
  apply below_tabulate; intros i j _ _.
  destruct (t1 <? get 0%Z img i j)%Z eqn:H1;
    destruct (t2 <? get 0%Z img i j)%Z eqn:H2; lia.
Qed.

(** Raising the threshold of the slide segmenter never clears a pixel: the
    mask for the lower threshold is nowhere above the mask for the higher
    one. *)
Theorem slide_threshold_monotone (S : Slide.SlideSegmenter)
    (np_image : ndarray rgb) (t1 t2 : Z) (out1 out2 : ndarray Z) :
  (t1 <= t2)%Z ->
  Slide.segment (Slide.with_threshold S t1) np_image = Ok out1 ->
  Slide.segment (Slide.with_threshold S t2) np_image = Ok out2 ->
  below out1 out2 /\
  forall i j, get 0%Z out1 i j = 255%Z -> get 0%Z out2 i j = 255%Z.
Proof.
  intros Ht H1 H2.
  destruct (Slide.nb_morph_iter S) as [|n0 [|n1 [|n2 rest]]] eqn:Hn;
    try (unfold Slide.segment, list_item in H1; simpl in H1;
         rewrite Hn in H1; discriminate).
  rewrite (slide_segment_three (Slide.with_threshold S t1) np_image
             n0 n1 n2 rest Hn) in H1.
  rewrite (slide_segment_three (Slide.with_threshold S t2) np_image
             n0 n1 n2 rest Hn) in H2.
  apply Ok_injective in H1, H2.
  assert (Hbin : binary_mask out2).
  { subst out2.
    apply morphologyEx_binary, morphologyEx_binary, morphologyEx_binary,
      threshold_binary_inv_binary. }
  assert (Hb : below out1 out2).
  { subst out1 out2.
    apply morphologyEx_below, morphologyEx_below, morphologyEx_below.
    apply (threshold_below (Slide.grey_of S np_image) t1 t2 Ht). }
  split; [exact Hb|].
  intros i j H255.
  destruct Hb as (Hr1 & Hc1 & Hle).
  specialize (Hle 0%Z i j); rewrite H255 in Hle.
  destruct (Nat.lt_ge_cases i (nrows out2)) as [Hi|Hi];
    [destruct (Nat.lt_ge_cases j (ncols out2)) as [Hj|Hj]|].
  - destruct (Hbin i j Hi Hj) as [H0|H0]; [lia | exact H0].
  - rewrite get_outside in Hle by lia; lia.
  - rewrite get_outside in Hle by lia; lia.
Qed.

Lemma slide_threshold_monotone_witness :
  below (np_zeros 3 3) (np_full 3 3 255) /\
  forall i j, get 0%Z (np_zeros 3 3) i j = 255%Z ->
              get 0%Z (np_full 3 3 255) i j = 255%Z.
Proof.
  apply (slide_threshold_monotone default_slide two_tone 5 120).
  - lia.
  - vm_compute; reflexivity.
  - vm_compute; reflexivity.
Defined.

(** *** Images on one side of the threshold *)

Lemma fold_max_le (l : list Z) (b : Z) :
  (0 <= b)%Z -> (forall x, In x l -> (x <= b)%Z) ->
  (fold_right Z.max 0 l <= b)%Z.
Proof.
  intros Hb; induction l as [|x l IH]; intros H; simpl; [exact Hb|].
  specialize (IH (fun y Hy => H y (or_intror Hy))).
  specialize (H x (or_introl eq_refl)); lia.
Qed.

Lemma fold_min_ge (l : list Z) (b : Z) :
  (b <= 255)%Z -> (forall x, In x l -> (b <= x)%Z) ->
  (b <= fold_right Z.min 255 l)%Z.
Proof.
  intros Hb; induction l as [|x l IH]; intros H; simpl; [exact Hb|].
  specialize (IH (fun y Hy => H y (or_intror Hy))).
  specialize (H x (or_introl eq_refl)); lia.
Qed.

Lemma fold_min_le (l : list Z) (x : Z) :
  In x l -> (fold_right Z.min 255 l <= x)%Z.
Proof.
  induction l as [|y l IH]; intros H; simpl; [destruct H|].
  destruct H as [-> | H]; [lia | specialize (IH H); lia].
Qed.

Lemma get_np_full (h w : nat) (v d : Z) (i j : nat) :
  get d (np_full h w v) i j = v \/ get d (np_full h w v) i j = d.
Proof.
  unfold np_full; rewrite get_tabulate; destruct (_ && _); auto.
Qed.

(** A uniform image goes through one dilation or one erosion unchanged when
    the element holds its anchor. *)
Lemma dilate1_full (k : kernel) (h w : nat) (v : Z) :
  holds_anchor k = true -> (0 <= v)%Z ->
  dilate1 k (np_full h w v) = np_full h w v.
Proof.
  intros Hk Hv; unfold dilate1, np_full at 1 2 4; simpl nrows; simpl ncols.
  apply tabulate_ext; intros i j Hi Hj.
  apply Z.le_antisymm.
  - apply fold_max_le; [exact Hv|].
    intros x Hx; apply in_map_iff in Hx; destruct Hx as [p [<- _]].
    unfold probe; destruct (_ && _); [|exact Hv].
    destruct (get_np_full h w v 0 (i + fst p - fst (anchor (effective_kernel k)))
                (j + snd p - snd (anchor (effective_kernel k)))) as [-> | ->];
      lia.
  - apply fold_max_ge.
    replace v with (probe 0 (np_full h w v) (effective_kernel k) i j
                      (anchor (effective_kernel k))) at 1.
    + apply in_map, holds_anchor_in; exact Hk.
    + rewrite probe_anchor; unfold np_full; apply get_tabulate_in; assumption.
Qed.

Lemma erode1_full (k : kernel) (h w : nat) (v : Z) :
  holds_anchor k = true -> (v <= 255)%Z ->
  erode1 k (np_full h w v) = np_full h w v.
Proof.
  intros Hk Hv; unfold erode1, np_full at 1 2 4; simpl nrows; simpl ncols.
  apply tabulate_ext; intros i j Hi Hj.
  apply Z.le_antisymm.
  - apply fold_min_le.
    replace v with (probe 255 (np_full h w v) (effective_kernel k) i j
                      (anchor (effective_kernel k))) at 1.
    + apply in_map, holds_anchor_in; exact Hk.
    + rewrite probe_anchor; unfold np_full; apply get_tabulate_in; assumption.
  - apply fold_min_ge; [exact Hv|].
    intros x Hx; apply in_map_iff in Hx; destruct Hx as [p [<- _]].
    unfold probe; destruct (_ && _); [|exact Hv].
    destruct (get_np_full h w v 255
                (i + fst p - fst (anchor (effective_kernel k)))
                (j + snd p - snd (anchor (effective_kernel k)))) as [-> | ->];
      lia.
Qed.

Lemma morphologyEx_full (op : morph_op) (k : kernel) (n h w : nat) (v : Z) :
  holds_anchor k = true -> (0 <= v <= 255)%Z ->
  morphologyEx (np_full h w v) op k n = np_full h w v.
Proof.
  intros Hk Hv.
  assert (Hd : forall m, dilate (np_full h w v) k m = np_full h w v).
  { intros m; unfold dilate; induction m as [|m IH]; simpl; [reflexivity|].
    rewrite IH; apply dilate1_full; [exact Hk | lia]. }
  assert (He : forall m, erode (np_full h w v) k m = np_full h w v).
  { intros m; unfold erode; induction m as [|m IH]; simpl; [reflexivity|].
    rewrite IH; apply erode1_full; [exact Hk | lia]. }
  destruct op; simpl; rewrite ?Hd, ?He, ?Hd; reflexivity.
Qed.

(** An image that is nowhere above the threshold comes out entirely
    foreground, an image that is everywhere above it entirely background,
    whatever the three counts, for an element that holds its anchor. *)
Theorem slide_uniform_images (S : Slide.SlideSegmenter)
    (np_image : ndarray rgb) :
  holds_anchor (Slide.struct_elem S) = true ->
  3 <= length (Slide.nb_morph_iter S) ->
  ((forall i j, i < nrows np_image -> j < ncols np_image ->
      (get 0%Z (Slide.grey_of S np_image) i j <= Slide.threshold S)%Z) ->
   Slide.segment S np_image
   = Ok (np_full (nrows np_image) (ncols np_image) 255)) /\
  ((forall i j, i < nrows np_image -> j < ncols np_image ->
      (Slide.threshold S < get 0%Z (Slide.grey_of S np_image) i j)%Z) ->
   Slide.segment S np_image
   = Ok (np_zeros (nrows np_image) (ncols np_image))).
Proof.
  intros Hk Hn.
  destruct (Slide.nb_morph_iter S) as [|n0 [|n1 [|n2 rest]]] eqn:Hl;
    try (simpl in Hn; lia).
  rewrite (slide_segment_three S np_image n0 n1 n2 rest Hl).
  split; intros H.
  - replace (threshold_binary_inv (Slide.grey_of S np_image)
               (Slide.threshold S) 255)
      with (np_full (nrows np_image) (ncols np_image) 255).
    + rewrite !morphologyEx_full by (try exact Hk; lia); reflexivity.
    + unfold threshold_binary_inv, np_full.
      change (nrows (Slide.grey_of S np_image)) with (nrows np_image).
      change (ncols (Slide.grey_of S np_image)) with (ncols np_image).
      apply tabulate_ext; intros i j Hi Hj.
      specialize (H i j Hi Hj).
      destruct (Slide.threshold S <? _)%Z eqn:Ht; [|reflexivity].
      apply Z.ltb_lt in Ht; lia.
  - change (np_zeros (nrows np_image) (ncols np_image))
      with (np_full (nrows np_image) (ncols np_image) 0).
    replace (threshold_binary_inv (Slide.grey_of S np_image)
               (Slide.threshold S) 255)
      with (np_full (nrows np_image) (ncols np_image) 0).
    + rewrite !morphologyEx_full by (try exact Hk; lia); reflexivity.
    + unfold threshold_binary_inv, np_full.
      change (nrows (Slide.grey_of S np_image)) with (nrows np_image).
      change (ncols (Slide.grey_of S np_image)) with (ncols np_image).
      apply tabulate_ext; intros i j Hi Hj.
      specialize (H i j Hi Hj).
      destruct (Slide.threshold S <? _)%Z eqn:Ht; [reflexivity|].
      apply Z.ltb_ge in Ht; lia.
Qed.

Lemma slide_uniform_images_witness :
  Slide.segment default_slide dark_image = Ok (np_full 3 3 255).
Proof.
  destruct (slide_uniform_images default_slide dark_image) as [Hfull _].
  - reflexivity.
  - simpl; lia.
  - apply Hfull; intros i j Hi Hj; simpl in Hi, Hj.
    do 3 (destruct i as [|i];
          [do 3 (destruct j as [|j]; [vm_compute; discriminate|]); lia|]);
      lia.
Defined.

(** ** The loop over the hole contours *)

Lemma combine_seq_nth (A : Type) (l : list A) (s i : nat) (x : A) :
  In (i, x) (combine (seq s (length l)) l)
  <-> s <= i /\ nth_error l (i - s) = Some x.
Proof.
  revert s; induction l as [|y l IH]; intros s; simpl.
  - split; [intros [] | intros [_ H]].
    destruct (i - s); discriminate.
  - rewrite IH; split.
    + intros [H|[Hs H]].
      * injection H as <- <-; rewrite Nat.sub_diag; split; [lia | reflexivity].
      * split; [lia|].
        replace (i - s) with (S (i - S s)) by lia; exact H.
    + intros [Hs H].
      destruct (i - s) as [|n] eqn:Hn.
      * left; injection H as <-; f_equal; lia.
      * right; split; [lia|].
        replace (i - S s) with n by lia; exact H.
Qed.

Lemma NoDup_map_fst_filter (A : Type) (P : nat * A -> bool)
    (l : list (nat * A)) :
  NoDup (map fst l) -> NoDup (map fst (filter P l)).
Proof.
  induction l as [|x l IH]; intros H; simpl; [constructor|].
  inversion H as [|? ? Hnin Hnd]; subst.
  destruct (P x); [|apply IH; exact Hnd].
  simpl; constructor; [|apply IH; exact Hnd].
  intros Hin; apply Hnin.
  apply in_map_iff in Hin; destruct Hin as [y [Hy Hin]].
  apply filter_In in Hin; destruct Hin as [Hin _].
  apply in_map_iff; exists y; split; assumption.
Qed.

Lemma map_fst_combine_seq (A : Type) (l : list A) (s : nat) :
  map fst (combine (seq s (length l)) l) = seq s (length l).
Proof.
  revert s; induction l as [|y l IH]; intros s; simpl; [reflexivity|].
  rewrite IH; reflexivity.
Qed.

Lemma in_contour_idx (hierarchy0 : list hierarchy_row) (i : nat) :
  In i (contour_idx hierarchy0)
  <-> exists row, nth_error hierarchy0 i = Some row /\ (0 <= parent row)%Z.
Proof.
  unfold contour_idx; rewrite in_map_iff; split.
  - intros [[k row] [Hk Hin]]; simpl in Hk; subst k.
    apply filter_In in Hin; destruct Hin as [Hin Hp]; simpl in Hp.
    apply combine_seq_nth in Hin; destruct Hin as [_ Hn].
    rewrite Nat.sub_0_r in Hn.
    exists row; split; [exact Hn | apply Z.leb_le; exact Hp].
  - intros [row [Hn Hp]]; exists (i, row); split; [reflexivity|].
    apply filter_In; split; [|apply Z.leb_le; exact Hp].
    apply combine_seq_nth; rewrite Nat.sub_0_r; split; [lia | exact Hn].
Qed.

(** The loop visits the indices of the hierarchy rows whose parent is not
    negative, and no other; it visits none of them twice. *)
Theorem contour_idx_holes (hierarchy0 : list hierarchy_row) :
  (forall i, In i (contour_idx hierarchy0)
             <-> exists row, nth_error hierarchy0 i = Some row /\
                             (0 <= parent row)%Z) /\
  NoDup (contour_idx hierarchy0).
Proof.
  split; [intros i; apply in_contour_idx|].
  unfold contour_idx; apply NoDup_map_fst_filter.
  rewrite map_fst_combine_seq; apply seq_NoDup.
Qed.

Lemma get_paint (L : collaborators) (hulls : list contour) (m : ndarray Z)
    (i j : nat) :
  i < nrows m -> j < ncols m ->
  get 0%Z (paint L hulls m) i j
  = if existsb (fun c => filled L c i j) hulls then 255%Z else get 0%Z m i j.
Proof.
  intros Hi Hj; destruct hulls as [|h hulls]; [reflexivity|].
  rewrite paint_pixels, get_tabulate_in by assumption; reflexivity.
Qed.

(** The loop over the hole contours only adds foreground: the mask it
    leaves has the shape of the mask it got, a pixel either keeps its value
    or becomes 255, so that no pixel that was 255 is cleared and a mask of 0
    and 255 stays one. *)
Theorem cleaner_only_adds_foreground (L : collaborators)
    (S : AggregateSegmenter) (contours2 : list contour) (idx : list nat)
    (m b : ndarray Z) :
  clean_contours L S contours2 idx m = Ok b ->
  nrows b = nrows m /\ ncols b = ncols m /\
  (forall i j, i < nrows m -> j < ncols m ->
     (get 0%Z b i j = get 0%Z m i j \/ get 0%Z b i j = 255%Z) /\
     (get 0%Z m i j = 255%Z -> get 0%Z b i j = 255%Z)) /\
  (binary_mask m -> binary_mask b).
Proof.
  intros H; rewrite clean_contours_paint in H.
  destruct (painted_hulls L S contours2 idx) as [hulls|e]; simpl in H;
    [|discriminate].
  apply Ok_injective in H; subst b.
  destruct (paint_shape L hulls m) as [Hr Hc].
  split; [exact Hr|]. split; [exact Hc|]. split.
  - intros i j Hi Hj; rewrite get_paint by assumption.
    destruct (existsb _ hulls); split; auto.
  - apply paint_binary.
Qed.

Lemma holed_mask_cleaned :
  clean_contours answers_pixel_hole default_segmenter
    (fst (findContours answers_pixel_hole holed_mask)) [1] holed_mask
  = Ok (np_full 5 5 255).
Proof. vm_compute; reflexivity. Qed.

Lemma cleaner_only_adds_foreground_witness :
  nrows (np_full 5 5 255) = nrows holed_mask /\
  ncols (np_full 5 5 255) = ncols holed_mask /\
  (forall i j, i < nrows holed_mask -> j < ncols holed_mask ->
     (get 0%Z (np_full 5 5 255) i j = get 0%Z holed_mask i j \/
      get 0%Z (np_full 5 5 255) i j = 255%Z) /\
     (get 0%Z holed_mask i j = 255%Z ->
      get 0%Z (np_full 5 5 255) i j = 255%Z)) /\
  (binary_mask holed_mask -> binary_mask (np_full 5 5 255)).
Proof.
  apply (cleaner_only_adds_foreground answers_pixel_hole default_segmenter
           (fst (findContours answers_pixel_hole holed_mask)) [1]).
  exact holed_mask_cleaned.
Defined.

(** A hole contour whose hull has a perimeter with a non-zero square raises
    nothing: its hull is painted once for each of the two conditions that
    holds, and not at all when neither does. *)
Theorem hole_with_perimeter_is_painted (L : collaborators)
    (S : AggregateSegmenter) (contours2 : list contour) (m : ndarray Z)
    (i : nat) (c : contour) :
  nth_error contours2 i = Some c ->
  PrimFloat.eqb (arcLength L (convexHull L c) * arcLength L (convexHull L c)) 0
  = false ->
  exists circularity,
    circularity_of (contourArea L (convexHull L c))
      (arcLength L (convexHull L c)) = Ok circularity /\
    clean_contour L S contours2 m i
    = Ok (if small_area S (contourArea L (convexHull L c)) ||
             inclusion S (contourArea L (convexHull L c)) circularity
          then drawContours L m (convexHull L c) else m).
Proof.
  intros Hc Hnz.
  exists (4 * np_pi * contourArea L (convexHull L c)
          / (arcLength L (convexHull L c) * arcLength L (convexHull L c)))%float.
  split; [unfold circularity_of, py_float_div; rewrite Hnz; reflexivity|].
  rewrite (clean_contour_nonzero_perimeter L S contours2 m i c Hc Hnz).
  destruct (small_area S _), (inclusion S _ _); simpl; try reflexivity.
  f_equal; exact (paint_idempotent L [convexHull L c] m).
Qed.

Lemma hole_with_perimeter_is_painted_witness :
  exists circularity,
    circularity_of
      (contourArea answers_pixel_hole
         (convexHull answers_pixel_hole [(2, 1); (1, 2); (2, 3); (3, 2)]%Z))
      (arcLength answers_pixel_hole
         (convexHull answers_pixel_hole [(2, 1); (1, 2); (2, 3); (3, 2)]%Z))
    = Ok circularity /\
    clean_contour answers_pixel_hole default_segmenter
      (fst (findContours answers_pixel_hole holed_mask)) holed_mask 1
    = Ok (if small_area default_segmenter
               (contourArea answers_pixel_hole
                  (convexHull answers_pixel_hole
                     [(2, 1); (1, 2); (2, 3); (3, 2)]%Z)) ||
             inclusion default_segmenter
               (contourArea answers_pixel_hole
                  (convexHull answers_pixel_hole
                     [(2, 1); (1, 2); (2, 3); (3, 2)]%Z)) circularity
          then drawContours answers_pixel_hole holed_mask
                 (convexHull answers_pixel_hole
                    [(2, 1); (1, 2); (2, 3); (3, 2)]%Z)
          else holed_mask).
Proof.
  apply (hole_with_perimeter_is_painted answers_pixel_hole default_segmenter
           (fst (findContours answers_pixel_hole holed_mask)) holed_mask 1
           [(2, 1); (1, 2); (2, 3); (3, 2)]%Z).
  - reflexivity.
  - vm_compute; reflexivity.
Defined.

(** ** Tiles without a hole contour *)

Lemma contour_idx_outer_only (hierarchy0 : list hierarchy_row) :
  (forall row, In row hierarchy0 -> (parent row < 0)%Z) ->
  contour_idx hierarchy0 = [].
Proof.
  intros H; destruct (contour_idx hierarchy0) as [|i rest] eqn:Hidx;
    [reflexivity|].
  assert (Hin : In i (contour_idx hierarchy0)) by (rewrite Hidx; left; reflexivity).
  apply in_contour_idx in Hin; destruct Hin as [row [Hn Hp]].
  apply nth_error_In in Hn; specialize (H row Hn); lia.
Qed.

(** When no traced contour has a parent, the loop changes nothing and
    raises nothing: the mask of the threshold goes to the smoothing as it is,
    and the two copies of [segment] return one mask. *)
Theorem outer_contours_are_not_filled (L : collaborators)
    (S : AggregateSegmenter) (np_image : ndarray rgba)
    (contours2 : list contour) (hierarchy0 : list hierarchy_row) :
  findContours L (initial_mask L S np_image) = (contours2, Some hierarchy0) ->
  (forall row, In row hierarchy0 -> (parent row < 0)%Z) ->
  clean_contours L S contours2 (contour_idx hierarchy0)
    (initial_mask L S np_image) = Ok (initial_mask L S np_image) /\
  Segmenters.segment L S np_image
  = Ok (separate L S (transform S (cvtColor_BGR2RGB (image_of np_image)))
          (initial_mask L S np_image)) /\
  AggregateProcessing.segment L S np_image
  = Ok (separate L S (transform S (cvtColor_BGR2RGB (image_of np_image)))
          (initial_mask L S np_image)).
Proof.
  intros Hf Hp.
  pose proof (contour_idx_outer_only hierarchy0 Hp) as Hidx.
  assert (Hs : Segmenters.segment L S np_image
               = Ok (separate L S
                       (transform S (cvtColor_BGR2RGB (image_of np_image)))
                       (initial_mask L S np_image))).
  { unfold Segmenters.segment; fold (initial_mask L S np_image).
    rewrite Hf, Hidx; reflexivity. }
  split; [rewrite Hidx; reflexivity|].
  split; [exact Hs|].
  rewrite (segment_past_subscript L S np_image hierarchy0);
    [exact Hs | rewrite Hf; reflexivity].
Qed.

Lemma outer_contours_are_not_filled_witness :
  clean_contours answers_outer_only default_segmenter
    [[(1, 1); (1, 3); (3, 3); (3, 1)]]%Z (contour_idx [(-1, -1, -1, -1)]%Z)
    (initial_mask answers_outer_only default_segmenter opaque_tile)
  = Ok (initial_mask answers_outer_only default_segmenter opaque_tile) /\
  Segmenters.segment answers_outer_only default_segmenter opaque_tile
  = Ok (separate answers_outer_only default_segmenter
          (transform default_segmenter (cvtColor_BGR2RGB (image_of opaque_tile)))
          (initial_mask answers_outer_only default_segmenter opaque_tile)) /\
  AggregateProcessing.segment answers_outer_only default_segmenter opaque_tile
  = Ok (separate answers_outer_only default_segmenter
          (transform default_segmenter (cvtColor_BGR2RGB (image_of opaque_tile)))
          (initial_mask answers_outer_only default_segmenter opaque_tile)).
Proof.
  apply (outer_contours_are_not_filled answers_outer_only default_segmenter
           opaque_tile [[(1, 1); (1, 3); (3, 3); (3, 1)]]%Z
           [(-1, -1, -1, -1)]%Z).
  - reflexivity.
  - intros row [<-|[]]; reflexivity.
Defined.

(** ** What [segment] can raise *)

Lemma clean_contours_outcomes (L : collaborators) (S : AggregateSegmenter)
    (contours2 : list contour) (idx : list nat) (m : ndarray Z) :
  (forall k, In k idx -> k < length contours2) ->
  (exists b, clean_contours L S contours2 idx m = Ok b) \/
  clean_contours L S contours2 idx m = Raise ZeroDivisionError.
Proof.
  revert m; induction idx as [|k rest IH]; intros m Hidx; simpl.
  - left; eexists; reflexivity.
  - unfold clean_contour.
    destruct (nth_error contours2 k) as [ck|] eqn:Hk.
    2:{ apply nth_error_None in Hk.
        specialize (Hidx k (or_introl eq_refl)); lia. }
    unfold list_item; rewrite Hk; simpl.
    destruct (circularity_of_outcomes (contourArea L (convexHull L ck))
                (arcLength L (convexHull L ck))) as [[circ Hcirc]|Hraise].
    + rewrite Hcirc; simpl; apply IH.
      intros k' Hk'; apply Hidx; right; exact Hk'.
    + rewrite Hraise; right; reflexivity.
Qed.

(** With one hierarchy row per contour at most, segmenters.py raises nothing
    but ZeroDivisionError, and aggregate_processing.py nothing but
    ZeroDivisionError and TypeError: no index falls outside the contours. *)
Theorem segment_exceptions (L : collaborators) (S : AggregateSegmenter)
    (np_image : ndarray rgba) :
  (forall hierarchy0,
      snd (findContours L (initial_mask L S np_image)) = Some hierarchy0 ->
      length hierarchy0
      <= length (fst (findContours L (initial_mask L S np_image)))) ->
  ((exists out, Segmenters.segment L S np_image = Ok out) \/
   Segmenters.segment L S np_image = Raise ZeroDivisionError) /\
  ((exists out, AggregateProcessing.segment L S np_image = Ok out) \/
   AggregateProcessing.segment L S np_image = Raise ZeroDivisionError \/
   AggregateProcessing.segment L S np_image = Raise TypeError).
Proof.
  intros Hlen.
  destruct (snd (findContours L (initial_mask L S np_image)))
    as [hierarchy0|] eqn:Hh.
  - assert (Hs : (exists out, Segmenters.segment L S np_image = Ok out) \/
                 Segmenters.segment L S np_image = Raise ZeroDivisionError).
    { specialize (Hlen hierarchy0 eq_refl).
      unfold Segmenters.segment; fold (initial_mask L S np_image).
      destruct (findContours L (initial_mask L S np_image))
        as [contours2 hierarchy]; simpl in Hh, Hlen; subst hierarchy.
      destruct (clean_contours_outcomes L S contours2 (contour_idx hierarchy0)
                  (initial_mask L S np_image)) as [[b Hb]|Hb].
      - intros k Hk; apply contour_idx_lt in Hk; lia.
      - rewrite Hb; left; eexists; reflexivity.
      - rewrite Hb; right; reflexivity. }
    split; [exact Hs|].
    rewrite (segment_past_subscript L S np_image hierarchy0 Hh).
    destruct Hs as [Hs|Hs]; [left | right; left]; exact Hs.
  - split.
    + left; eexists; apply segmenters_returns_zeros; exact Hh.
    + right; right; apply aggregate_processing_raises; exact Hh.
Qed.

Lemma segment_exceptions_witness :
  ((exists out,
       Segmenters.segment answers_point_hole default_segmenter opaque_tile
       = Ok out) \/
   Segmenters.segment answers_point_hole default_segmenter opaque_tile
   = Raise ZeroDivisionError) /\
  ((exists out,
       AggregateProcessing.segment answers_point_hole default_segmenter
         opaque_tile = Ok out) \/
   AggregateProcessing.segment answers_point_hole default_segmenter opaque_tile
   = Raise ZeroDivisionError \/
   AggregateProcessing.segment answers_point_hole default_segmenter opaque_tile
   = Raise TypeError).
Proof.
  apply (segment_exceptions answers_point_hole default_segmenter opaque_tile).
  intros hierarchy0 H; simpl in H; injection H as <-; simpl; lia.
Defined.

(** ** From the markers to the mask *)

(** A pixel that the flooding leaves as the colour code set it ends as
    foreground exactly when it bore a label and lies outside the border
    layer; this holds for the seed numbered 255 as for any other. *)
Theorem untouched_marker_outcome (L : collaborators) (S : AggregateSegmenter)
    (image_dec : ndarray rgb) (mask markers borders : ndarray Z)
    (nb_labels : Z) (i j : nat) :
  label_markers S mask = (markers, nb_labels) ->
  (nb_labels < 2 ^ 31 - 1)%Z ->
  i < nrows markers -> j < ncols markers ->
  get 0%Z (flood L image_dec (encode_markers markers nb_labels borders)) i j
  = get 0%Z (encode_markers markers nb_labels borders) i j ->
  (get 0%Z (collapse (flood L image_dec
                        (encode_markers markers nb_labels borders))) i j
   = 255%Z
   <-> get 0%Z markers i j <> 0%Z /\ get 0%Z borders i j <> 255%Z) /\
  (get 0%Z (collapse (flood L image_dec
                        (encode_markers markers nb_labels borders))) i j
   = 0%Z
   <-> get 0%Z markers i j = 0%Z \/ get 0%Z borders i j = 255%Z).
Proof.
  intros Hl Hn Hi Hj Hkeep.
  pose proof (label_markers_range S mask markers nb_labels i j Hl Hi Hj) as Hr.
  destruct (marker_color_above nb_labels ltac:(lia)) as (Hmc & Habove & H255).
  rewrite get_collapse.
  2:{ destruct (flood_shape L image_dec
                  (encode_markers markers nb_labels borders)) as [-> _].
      destruct (encode_markers_shape markers borders nb_labels) as [-> _].
      exact Hi. }
  2:{ destruct (flood_shape L image_dec
                  (encode_markers markers nb_labels borders)) as [_ ->].
      destruct (encode_markers_shape markers borders nb_labels) as [_ ->].
      exact Hj. }
  rewrite Hkeep, get_encode_markers by assumption.
  rewrite Hmc.
  destruct (Z.eqb_spec (get 0%Z borders i j) 255) as [Hb|Hb].
  - simpl; lia.
  - destruct (Z.eqb_spec (get 0%Z markers i j) 255) as [Hm|Hm].
    + replace (marker_color_of nb_labels <? 0)%Z with false
        by (symmetry; apply Z.ltb_ge; lia).
      replace (Z.eqb (marker_color_of nb_labels) 255) with false
        by (symmetry; apply Z.eqb_neq; lia).
      replace (0 <? marker_color_of nb_labels)%Z with true
        by (symmetry; apply Z.ltb_lt; lia).
      simpl; lia.
    + replace (get 0%Z markers i j <? 0)%Z with false
        by (symmetry; apply Z.ltb_ge; lia).
      apply Z.eqb_neq in Hm; rewrite Hm; simpl.
      destruct (0 <? get 0%Z markers i j)%Z eqn:Hpos; lia.
Qed.

Lemma untouched_marker_outcome_witness :
  get 0%Z (collapse
             (flood answers_no_foreground (image_of opaque_tile)
                (encode_markers (tabulate 5 5 (fun _ _ => 1%Z)) 1
                   (border_layer default_segmenter dot_mask)))) 2 2
  = 255%Z.
Proof.
  destruct (untouched_marker_outcome answers_no_foreground default_segmenter
              (image_of opaque_tile) dot_mask (tabulate 5 5 (fun _ _ => 1%Z))
              (border_layer default_segmenter dot_mask) 1 2 2)
    as [Hfg _].
  - vm_compute; reflexivity.
  - lia.
  - simpl; lia.
  - simpl; lia.
  - reflexivity.
  - apply Hfg; split; vm_compute; discriminate.
Defined.

(** ** Masks of 0 and 255 along the stages *)

Lemma dilate_one (k : kernel) (img : ndarray Z) :
  dilate img k 1 = dilate1 k img.
Proof. unfold dilate; reflexivity. Qed.

Lemma dilate1_shape (k : kernel) (img : ndarray Z) :
  nrows (dilate1 k img) = nrows img /\ ncols (dilate1 k img) = ncols img.
Proof. unfold dilate1; split; reflexivity. Qed.

Lemma border_layer_binary (S : AggregateSegmenter) (m : ndarray Z) :
  binary_mask m -> holds_anchor (struct_elem S) = true ->
  binary_mask (border_layer S m).
Proof.
  intros Hm Hk; unfold border_layer, sub_uint8.
  rewrite dilate_one.
  destruct (dilate1_shape (struct_elem S) m) as [-> ->].
  apply binary_mask_tabulate; intros i j Hi Hj.
  pose proof (dilate1_extensive (struct_elem S) m i j Hk Hi Hj) as Hle.
  pose proof (dilate1_binary (struct_elem S) m Hm i j Hi Hj) as Hd.
  pose proof (Hm i j Hi Hj) as Hv.
  unfold bit255 in *.
  destruct Hd as [Hd|Hd], Hv as [Hv|Hv]; rewrite Hd, Hv in *;
    [left | lia | right | left]; reflexivity.
Qed.

(** When the mask of the threshold holds only 0 and 255, so do the mask the
    loop over the contours leaves, the smoothed mask, the marker mask and its
    two dilations, and, for an element that holds its anchor, the border
    layer. *)
Theorem masks_stay_binary (L : collaborators) (S : AggregateSegmenter)
    (contours2 : list contour) (idx : list nat) (m b : ndarray Z) :
  binary_mask m ->
  clean_contours L S contours2 idx m = Ok b ->
  binary_mask b /\
  binary_mask (smooth S b) /\
  binary_mask (marker_mask (distance_field L (smooth S b)) (smooth S b)) /\
  binary_mask (dilate (marker_mask (distance_field L (smooth S b))
                         (smooth S b)) (struct_elem S) 2) /\
  (holds_anchor (struct_elem S) = true ->
   binary_mask (border_layer S (smooth S b))).
Proof.
  intros Hm Hc.
  assert (Hb : binary_mask b).
  { rewrite clean_contours_paint in Hc.
    destruct (painted_hulls L S contours2 idx) as [hulls|e]; simpl in Hc;
      [|discriminate].
    apply Ok_injective in Hc; subst b; apply paint_binary; exact Hm. }
  pose proof (smooth_binary S b Hb) as Hs.
  split; [exact Hb|]. split; [exact Hs|].
  split; [apply marker_mask_binary|].
  split; [apply dilate_binary, marker_mask_binary|].
  intros Hk; apply border_layer_binary; assumption.
Qed.

Lemma holed_mask_binary : binary_mask holed_mask.
Proof.
  apply binary_mask_tabulate; intros i j _ _.
  destruct (_ && _); [left | right]; reflexivity.
Qed.

Lemma masks_stay_binary_witness :
  binary_mask (np_full 5 5 255) /\
  binary_mask (smooth default_segmenter (np_full 5 5 255)).
Proof.
  destruct (masks_stay_binary answers_pixel_hole default_segmenter
              (fst (findContours answers_pixel_hole holed_mask)) [1]
              holed_mask (np_full 5 5 255))
    as (Hb & Hs & _).
  - exact holed_mask_binary.
  - exact holed_mask_cleaned.
  - split; assumption.
Defined.

(** ** Tiles without seeds *)

Lemma label_count_zero (input : ndarray Z) (structure : kernel) :
  snd (label input structure) = 0%Z <-> all_zero input.
Proof.
  destruct (label_spec input structure)
    as [(_ & _ & Hn & Hb & Hs & Hu) Hzero].
  split.
  - intros H0 i j Hi Hj; apply Hzero; [assumption | assumption|].
    specialize (Hb i j Hi Hj); lia.
  - intros Hall.
    destruct (Z.eq_dec (snd (label input structure)) 0) as [H0|Hne];
      [exact H0|].
    destruct (Hu 1%Z ltac:(lia)) as (i & j & Hi & Hj & H1).
    exfalso; apply (Hs i j Hi Hj); [rewrite H1; discriminate|].
    apply Hall; assumption.
Qed.

(** The labelling counts no seed exactly when the dilated marker mask is
    empty, and the labelled markers are then all zero. *)
Theorem no_seed_no_label (S : AggregateSegmenter) (dt : ndarray float)
    (internal_binary : ndarray Z) :
  (snd (label_markers S (marker_mask dt internal_binary)) = 0%Z
   <-> all_zero (dilate (marker_mask dt internal_binary) (struct_elem S) 2)) /\
  (snd (label_markers S (marker_mask dt internal_binary)) = 0%Z ->
   all_zero (fst (label_markers S (marker_mask dt internal_binary)))).
Proof.
  assert (Hbin : binary_mask
                   (dilate (marker_mask dt internal_binary) (struct_elem S) 2))
    by apply dilate_binary, marker_mask_binary.
  assert (Hiff : all_zero
                   (astype_int32
                      (dilate (marker_mask dt internal_binary)
                         (struct_elem S) 2))
                 <-> all_zero
                       (dilate (marker_mask dt internal_binary)
                          (struct_elem S) 2)).
  { destruct (astype_int32_shape
                (dilate (marker_mask dt internal_binary) (struct_elem S) 2))
      as [Hr Hc].
    split; intros H i j Hi Hj.
    - rewrite <- get_astype_int32_binary by assumption.
      apply H; [rewrite Hr | rewrite Hc]; assumption.
    - rewrite Hr in Hi; rewrite Hc in Hj.
      rewrite get_astype_int32_binary by assumption.
      apply H; assumption. }
  unfold label_markers; split.
  - rewrite label_count_zero; exact Hiff.
  - intros H0 i j Hi Hj.
    destruct (label_spec
                (astype_int32
                   (dilate (marker_mask dt internal_binary) (struct_elem S) 2))
                ones3x3) as [(Hr & Hc & _ & Hb & _) _].
    rewrite Hr in Hi; rewrite Hc in Hj.
    specialize (Hb i j Hi Hj); lia.
Qed.
